(** * Telegram pairing flow of Aether-Claw ([telegram_setup.py])

    A shallow embedding of the pairing protocol: the two polling loops
    [wait_for_start_command] and [wait_for_pairing_code], the code generator
    [generate_pairing_code], the part of [setup_telegram] that chains the two
    phases, and the merge of the credentials into the [.env] file.

    Conventions of the embedding.
    - A Python [str] is a list of Unicode code points ([str := list N]);
      [lit] turns a Rocq string literal into such a list.
    - The network, the clock and [time.sleep] are the operations of a
      [World] (explicit state passing); every theorem about a loop holds for
      every world.  [time.time()] is read as an integer number of seconds:
      fractions of a second and float rounding are abstracted.
    - A [while] loop takes fuel; running out of fuel is the outcome
      [OutOfFuel], distinct from every value the Python function returns.
    - An exception raised inside [try: ... except Exception: pass] is the
      signal [Raise] of the loop body.
    - [print] is not modelled (it is assumed not to raise).
    - The [.env] file is the sequence of the characters it holds (its
      encoding is not modelled).  It is read and written in text mode:
      every line break is read as a newline, and a newline is written as
      itself ([os.linesep] of Linux and macOS). *)

From Stdlib Require Import String Ascii DecimalString.
From Stdlib Require DecimalPos DecimalZ.
From Stdlib Require Import ZArith NArith List Bool Lia Sorted.
Import ListNotations.
Open Scope Z_scope.

(** ** Python strings *)

Module PyStr.

Definition char := N.
Definition str := list char.

(** A literal of the source, as its list of code points. *)
Definition lit (s : string) : str :=
  List.map N_of_ascii (list_ascii_of_string s).

Fixpoint eqb (a b : str) : bool :=
  match a, b with
  | [], [] => true
  | x :: a', y :: b' => N.eqb x y && eqb a' b'
  | _, _ => false
  end.

(** [s.startswith(p)] *)
Fixpoint startswith (p s : str) : bool :=
  match p, s with
  | [], _ => true
  | x :: p', y :: s' => N.eqb x y && startswith p' s'
  | _ :: _, [] => false
  end.

(** [c.isspace()] for one code point: the white-space table of CPython
    (bidirectional classes WS, B, S and category Zs). *)
Definition isspace (c : char) : bool :=
  let n := Z.of_N c in
  ((9 <=? n) && (n <=? 13))
  || ((28 <=? n) && (n <=? 32))
  || (n =? 133) || (n =? 160) || (n =? 5760)
  || ((8192 <=? n) && (n <=? 8202))
  || (n =? 8232) || (n =? 8233) || (n =? 8239) || (n =? 8287)
  || (n =? 12288).

(** [s.lstrip()] *)
Fixpoint lstrip (s : str) : str :=
  match s with
  | [] => []
  | c :: s' => if isspace c then lstrip s' else s
  end.

(** [s.rstrip()] *)
Fixpoint rstrip (s : str) : str :=
  match s with
  | [] => []
  | c :: s' =>
      match rstrip s' with
      | [] => if isspace c then [] else [c]
      | r => c :: r
      end
  end.

(** [s.strip()] *)
Definition strip (s : str) : str := rstrip (lstrip s).

(** [str(n)] for an [int]: its decimal numeral. *)
Definition str_of_int (n : Z) : str :=
  lit (NilZero.string_of_int (Z.to_int n)).

(** [string.digits] *)
Definition digits : str := lit "0123456789".

Definition newline : char := 10%N.
Definition slash : char := 47%N.

End PyStr.

Import PyStr.

(** ** Data model: what [json.loads] hands to the loops

    The fields follow the shape of a [getUpdates] answer.  Where the source
    reads a field in a way that can raise, the field records it: a missing
    key, or a value of a type the operation does not accept. *)

(** [chat['id']]: an integer (what the service sends) or a string. *)
Inductive chat_ident :=
| IdInt (n : Z)
| IdStr (s : str).

(** [str(chat['id'])] *)
Definition str_of_chat_id (c : chat_ident) : str :=
  match c with
  | IdInt n => str_of_int n
  | IdStr s => s
  end.

Inductive chat_field :=
| ChatMissing            (* msg['chat'] raises *)
| ChatNoId               (* msg['chat'] is there, chat['id'] raises *)
| ChatId (c : chat_ident).

Inductive text_field :=
| TextAbsent             (* no 'text' key: the default '' is used *)
| TextStr (s : str)
| TextOther.             (* a value without .strip(): raises *)

Inductive from_field :=
| FromAbsent             (* no 'from' key: the default {} is used *)
| FromDict (first_name : option str)
| FromOther.             (* a value without .get(): raises *)

Record message := {
  chat : chat_field;
  text : text_field;
  from_ : from_field
}.

Record update := {
  update_id : option Z;        (* None: update['update_id'] + 1 raises *)
  msg : option message         (* None: 'message' not in update *)
}.

Inductive failure := IOFailure | ParseFailure.

(** The outcome of [urlopen(url)], [resp.read()] and [json.loads]:
    an exception, or the parsed [result] with its ['ok'] flag and its
    ['result'] list (the default [[]] when the key is absent). *)
Inductive fetch :=
| Failed (e : failure)
| Reply (ok : bool) (updates : list update).

(** The two messages [setup_telegram] sends. *)
Inductive outgoing :=
| WelcomeMsg (pairing_code : str)
| ConfirmMsg.

(** ** The body of the [for update in updates] loops *)

Inductive signal (A : Type) :=
| Next                   (* the body ended or hit [continue] *)
| Return (a : A)
| Raise.                 (* an exception leaves the [try] block *)
Arguments Next {A}.
Arguments Return {A} a.
Arguments Raise {A}.

(** [msg.get('text', '').strip()]; [None] when it raises. *)
Definition stripped_text (m : message) : option str :=
  match text m with
  | TextAbsent => Some (strip [])
  | TextStr s => Some (strip s)
  | TextOther => None
  end.

(** [msg.get('from', {}).get('first_name', 'User')]; [None] when it raises. *)
Definition user_name (m : message) : option str :=
  match from_ m with
  | FromAbsent => Some (lit "User")
  | FromDict (Some n) => Some n
  | FromDict None => Some (lit "User")
  | FromOther => None
  end.

(** Lines 94-105 of [wait_for_start_command]: one iteration for [update]. *)
Definition start_update (u : update) (offset : Z) : signal (option str) * Z :=
  match update_id u with
  | None => (Raise, offset)
  | Some i =>
      let offset := i + 1 in
      match msg u with
      | None => (Next, offset)
      | Some m =>
          match chat m with
          | ChatMissing => (Raise, offset)
          | c =>
              match stripped_text m with
              | None => (Raise, offset)
              | Some text =>
                  if eqb text (lit "/start") then
                    match c with
                    | ChatId id =>
                        let chat_id := str_of_chat_id id in
                        match user_name m with
                        | None => (Raise, offset)
                        | Some _ => (Return (Some chat_id), offset)
                        end
                    | _ => (Raise, offset)
                    end
                  else (Next, offset)
              end
          end
      end
  end.

(** Lines 137-151 of [wait_for_pairing_code]: one iteration for [update]. *)
Definition pairing_update (chat_id pairing_code : str)
    (u : update) (offset : Z) : signal bool * Z :=
  match update_id u with
  | None => (Raise, offset)
  | Some i =>
      let offset := i + 1 in
      match msg u with
      | None => (Next, offset)
      | Some m =>
          match chat m with
          | ChatMissing => (Raise, offset)
          | c =>
              match stripped_text m with
              | None => (Raise, offset)
              | Some text =>
                  match c with
                  | ChatId id =>
                      if eqb (str_of_chat_id id) chat_id then
                        if eqb text pairing_code then (Return true, offset)
                        else if startswith (lit "/") text then (Next, offset)
                        else (Next, offset)
                      else (Next, offset)
                  | _ => (Raise, offset)
                  end
              end
          end
      end
  end.

(** [for update in updates: body].  Besides the signal and the value of
    [offset] it leaves, the loop reports the ids it assigned from, in order
    (a record of the run, not a variable of the source). *)
Fixpoint for_updates {A : Type} (body : update -> Z -> signal A * Z)
    (updates : list update) (offset : Z) : signal A * Z * list Z :=
  match updates with
  | [] => (Next, offset, [])
  | u :: rest =>
      let seen_u := match update_id u with Some i => [i] | None => [] end in
      match body u offset with
      | (Next, offset') =>
          let '(s, offset'', seen) := for_updates body rest offset' in
          (s, offset'', seen_u ++ seen)
      | (s, offset') => (s, offset', seen_u)
      end
  end.

(** The [try] block after the request: [if result.get('ok'): for ...]. *)
Definition round {A : Type} (body : update -> Z -> signal A * Z)
    (resp : fetch) (offset : Z) : signal A * Z * list Z :=
  match resp with
  | Failed _ => (Raise, offset, [])
  | Reply ok updates =>
      if ok then for_updates body updates offset else (Next, offset, [])
  end.

(** ** The world: clock, network, sleep *)

Class World (W : Type) := {
  (** [time.time()] *)
  time_time : W -> Z * W;
  (** [urlopen(".../bot<token>/getUpdates[?offset=<n>]", timeout=30)],
      [resp.read()] and [json.loads] *)
  getUpdates : str -> option Z -> W -> fetch * W;
  (** [time.sleep(seconds)] *)
  time_sleep : Z -> W -> W;
  (** [send_telegram_message(token, chat_id, message)]: [True] when the
      service answers [ok], [False] on a refusal or on any exception *)
  send_telegram_message : str -> str -> outgoing -> W -> bool * W
}.

Inductive outcome (A : Type) :=
| Returned (a : A)
| OutOfFuel.
Arguments Returned {A} a.
Arguments OutOfFuel {A}.

(** One pass through the [while] body, as the run records it. *)
Record poll := {
  lg_clock : Z;              (* the reading of the loop guard *)
  lg_offset : Z;             (* [offset] when the request is built *)
  lg_request : option Z;     (* the [offset] parameter of the URL *)
  lg_response : fetch;
  lg_seen : list Z;          (* the ids the [for] loop assigned from *)
  lg_after : Z               (* [offset] when the [try] block is left *)
}.

Record run (W A : Type) := {
  result : outcome A;
  offset_end : Z;            (* the last value of [offset] *)
  log : list poll;
  expired : option Z;        (* the guard reading that ended the loop *)
  world : W
}.
Arguments result {W A} r.
Arguments expired {W A} r.
Arguments offset_end {W A} r.
Arguments log {W A} r.
Arguments world {W A} r.

Section Loops.

Context {W : Type} `{World W}.

(** The [while time.time() - start_time < timeout] loop shared, line for
    line, by the two phases.  They differ in the URL ([request]), in the
    body of the [for] loop ([body]) and in the value returned after the
    loop ([on_timeout]). *)
Fixpoint poll_loop {A : Type} (request : Z -> option Z)
    (body : update -> Z -> signal A * Z) (on_timeout : A)
    (fuel : nat) (token : str) (start_time timeout offset : Z) (w : W)
    : run W A :=
  match fuel with
  | O => {| result := OutOfFuel; offset_end := offset; log := [];
            expired := None; world := w |}
  | S fuel' =>
      let (now, w1) := time_time w in
      if now - start_time <? timeout then
        let (resp, w2) := getUpdates token (request offset) w1 in
        let '(s, offset', seen) := round body resp offset in
        let entry := {| lg_clock := now; lg_offset := offset;
                        lg_request := request offset; lg_response := resp;
                        lg_seen := seen; lg_after := offset' |} in
        match s with
        | Return v =>
            {| result := Returned v; offset_end := offset';
               log := [entry]; expired := None; world := w2 |}
        | _ =>
            let r := poll_loop request body on_timeout fuel' token
                       start_time timeout offset' (time_sleep 2 w2) in
            {| result := result r; offset_end := offset_end r;
               log := entry :: log r; expired := expired r;
               world := world r |}
        end
      else
        {| result := Returned on_timeout; offset_end := offset;
           log := []; expired := Some now; world := w1 |}
  end.

(** [if offset: url += f"?offset={offset}"] *)
Definition start_request (offset : Z) : option Z :=
  if offset =? 0 then None else Some offset.

(** [url = f".../getUpdates?offset={offset}"] *)
Definition pairing_request (offset : Z) : option Z := Some offset.

Definition wait_for_start_command (fuel : nat) (token : str) (timeout : Z)
    (w : W) : run W (option str) :=
  let (start_time, w0) := time_time w in
  let offset := 0 in
  poll_loop start_request start_update None fuel token
    start_time timeout offset w0.

Definition wait_for_pairing_code (fuel : nat) (token chat_id pairing_code : str)
    (timeout : Z) (w : W) : run W bool :=
  let (start_time, w0) := time_time w in
  let offset := 0 in
  poll_loop pairing_request (pairing_update chat_id pairing_code) false
    fuel token start_time timeout offset w0.

End Loops.

(** [''.join(random.choices(string.digits, k=6))]: the i-th draw picks
    the digit of index [rand i mod 10]. *)
Definition generate_pairing_code (rand : nat -> nat) : str :=
  List.map (fun i => nth (rand i mod 10)%nat digits 48%N) (seq 0 6).

(** What one pairing attempt of [setup_telegram] (lines 223-251) leaves. *)
Record attempt (W : Type) := {
  handshake : run W (option str);
  challenge : option (run W bool);   (* None: the attempt ended before it *)
  welcome_sent : option bool;
  paired : outcome (option str)      (* the bound chat id, if any *)
}.
Arguments handshake {W} a.
Arguments challenge {W} a.
Arguments welcome_sent {W} a.
Arguments paired {W} a.

Section Attempt.

Context {W : Type} `{World W}.

(** Lines 223-251 of [setup_telegram]: the code is drawn, the handshake
    runs, the welcome message is sent, the challenge runs.  [paired] is
    [Returned None] where the source returns [False]. *)
Definition pairing_attempt (fuel : nat) (rand : nat -> nat) (token : str)
    (w : W) : attempt W :=
  let pairing_code := generate_pairing_code rand in
  let h := wait_for_start_command fuel token 300 w in
  match result h with
  | OutOfFuel =>
      {| handshake := h; challenge := None; welcome_sent := None;
         paired := OutOfFuel |}
  | Returned None | Returned (Some []) =>          (* [if not chat_id] *)
      {| handshake := h; challenge := None; welcome_sent := None;
         paired := Returned None |}
  | Returned (Some chat_id) =>
      let (sent, w1) :=
        send_telegram_message token chat_id (WelcomeMsg pairing_code)
          (world h) in
      let c := wait_for_pairing_code fuel token chat_id pairing_code 300 w1 in
      {| handshake := h; challenge := Some c; welcome_sent := Some sent;
         paired := match result c with
                   | OutOfFuel => OutOfFuel
                   | Returned true => Returned (Some chat_id)
                   | Returned false => Returned None
                   end |}
  end.

End Attempt.

(** ** The credential store: the [.env] file

    The file is opened in text mode, to be read (line 267) and to be
    written (line 291); its content is the sequence of the characters it
    holds.  A text-mode read translates the line breaks: a carriage
    return followed by a newline, and a carriage return alone, are each
    read as one newline ([universal_newlines]); [readlines] cuts the text
    so translated.  A text-mode write puts [os.linesep] for each newline:
    the newline itself on Linux and macOS, the systems modelled here, so
    that the file written holds the strings given to [writelines], one
    after the other.  [save_credentials] is the merge on the text that
    was read, [save_env_file] the whole of lines 265-292 on the content
    of the file. *)

Module Env.

Definition cr : char := 13%N.

(** What a text-mode read makes of the characters of the file
    ([open(env_file, 'r')], universal newlines): [after_cr] tells that
    the character before was a carriage return, read as a newline, so
    that a newline that follows it is part of the same line break. *)
Fixpoint translate (after_cr : bool) (raw : str) : str :=
  match raw with
  | [] => []
  | c :: rest =>
      if N.eqb c cr then newline :: translate true rest
      else if N.eqb c newline then
        if after_cr then translate false rest
        else newline :: translate false rest
      else c :: translate false rest
  end.

Definition universal_newlines (raw : str) : str := translate false raw.

(** [f.readlines()] on the text read: the text cut after each newline;
    the lines keep their newline, the last one may lack it. *)
Fixpoint readlines (content : str) : list str :=
  match content with
  | [] => []
  | c :: rest =>
      if N.eqb c newline then [c] :: readlines rest
      else match readlines rest with
           | [] => [[c]]
           | l :: ls => (c :: l) :: ls
           end
  end.

(** [f.writelines(new_lines)] on a file opened with ['w']: the strings,
    one after the other (each newline is written as itself). *)
Definition writelines (new_lines : list str) : str := List.concat new_lines.

Definition token_key : str := lit "TELEGRAM_BOT_TOKEN=".
Definition chat_id_key : str := lit "TELEGRAM_CHAT_ID=".

(** [f'TELEGRAM_BOT_TOKEN={token}\n'] and [f'TELEGRAM_CHAT_ID={chat_id}\n'] *)
Definition token_line (token : str) : str := token_key ++ token ++ [newline].
Definition chat_id_line (chat_id : str) : str :=
  chat_id_key ++ chat_id ++ [newline].

(** The state of the [for line in env_lines] loop:
    [new_lines], [token_found], [chat_id_found]. *)
Definition merge_state : Type := list str * bool * bool.

(** Lines 276-283: one iteration. *)
Definition merge_step (token chat_id : str) (st : merge_state) (line : str)
    : merge_state :=
  let '(new_lines, token_found, chat_id_found) := st in
  if startswith token_key line then
    (new_lines ++ [token_line token], true, chat_id_found)
  else if startswith chat_id_key line then
    (new_lines ++ [chat_id_line chat_id], token_found, true)
  else
    (new_lines ++ [line], token_found, chat_id_found).

(** Lines 271-288: the loop, then the two appends. *)
Definition merge_lines (token chat_id : str) (env_lines : list str)
    : list str :=
  let '(new_lines, token_found, chat_id_found) :=
    fold_left (merge_step token chat_id) env_lines ([], false, false) in
  let new_lines :=
    if token_found then new_lines
    else new_lines ++ [newline :: token_line token] in
  let new_lines :=
    if chat_id_found then new_lines
    else new_lines ++ [chat_id_line chat_id] in
  new_lines.

(** Lines 265-292 on the text read: cut the text into lines if the file
    exists ([None]: it does not), merge, write back.  The value is the
    new content of the file. *)
Definition save_credentials (token chat_id : str) (env_file : option str)
    : str :=
  let env_lines :=
    match env_file with
    | Some content => readlines content
    | None => []
    end in
  writelines (merge_lines token chat_id env_lines).

(** Lines 265-292 on the content of the file: read it in text mode if
    the file exists ([None]: it does not), merge, write back.  The value
    is the new content of the file. *)
Definition save_env_file (token chat_id : str) (env_file : option str)
    : str :=
  let env_lines :=
    match env_file with
    | Some raw => readlines (universal_newlines raw)
    | None => []
    end in
  writelines (merge_lines token chat_id env_lines).

(** A file written as the given lines, each one ended by a newline. *)
Definition file_of (lines : list string) : str :=
  List.concat (List.map (fun l => lit l ++ [newline]) lines).

(** The merge as the specification words it: the value is replaced in
    place on every line that begins with the key; when no line does, one
    new line [key=value] is appended; nothing else changes. *)
Definition spec_set (key value : str) (lines : list str) : list str :=
  if existsb (startswith key) lines then
    List.map (fun l => if startswith key l then key ++ value ++ [newline]
                       else l) lines
  else lines ++ [key ++ value ++ [newline]].

Definition spec_merge (token chat_id : str) (lines : list str) : list str :=
  spec_set chat_id_key chat_id (spec_set token_key token lines).

(** What the loop puts in [new_lines] for one line of the file. *)
Definition replaced (token chat_id line : str) : str :=
  if startswith token_key line then token_line token
  else if startswith chat_id_key line then chat_id_line chat_id
  else line.

(** A line that ends with its only newline. *)
Definition terminated (l : str) : Prop :=
  exists body, l = body ++ [newline] /\ ~ In newline body.

(** The lines the first merge writes, as a second reading finds them. *)
Definition written (token chat_id : str) (L : list str) : list str :=
  List.map (replaced token chat_id) L
  ++ (if existsb (startswith token_key) L then []
      else [[newline]; token_line token])
  ++ (if existsb (startswith chat_id_key) L then []
      else [chat_id_line chat_id]).

(** A file written as the given lines, each one ended by a carriage
    return and a newline. *)
Definition crlf_file_of (lines : list string) : str :=
  List.concat (List.map (fun l => lit l ++ [cr; newline]) lines).

(** The content of a file that is empty or ends with a line break: a
    newline or a carriage return. *)
Definition ends_with_line_break (raw : str) : Prop :=
  last raw newline = newline \/ last raw newline = cr.

(** A file that does not exist, or is empty, or ends with a newline. *)
Definition well_ended (env_file : option str) : Prop :=
  match env_file with
  | Some content => last content newline = newline
  | None => True
  end.

End Env.

(** ** A simulated service, for concrete runs

    The unconfirmed updates are kept in a queue.  A [getUpdates] call first
    receives the next batch of arrivals, then forgets (confirms) the queued
    updates whose id is below the requested offset, and answers with the
    queue.  Without an offset nothing is confirmed.  A call can be made to
    fail instead.  A call takes one second on the clock, [time.sleep(d)]
    takes [d]. *)

Module Sim.

Record sim := {
  now : Z;
  queue : list update;
  arrivals : list (list update);
  faults : list (option failure);   (* per call: does the request fail? *)
  outbox : list (str * outgoing)
}.

Definition keeps (request : option Z) (u : update) : bool :=
  match request, update_id u with
  | Some offset, Some i => offset <=? i
  | _, _ => true
  end.

Definition sim_getUpdates (token : str) (request : option Z) (s : sim)
    : fetch * sim :=
  match faults s with
  | Some f :: later =>
      (Failed f,
       {| now := now s + 1; queue := queue s; arrivals := arrivals s;
          faults := later; outbox := outbox s |})
  | _ =>
      let q := List.filter (keeps request) (queue s ++ hd [] (arrivals s)) in
      (Reply true q,
       {| now := now s + 1; queue := q; arrivals := tl (arrivals s);
          faults := tl (faults s); outbox := outbox s |})
  end.

#[global] Instance sim_world : World sim := {
  time_time s := (now s, s);
  getUpdates := sim_getUpdates;
  time_sleep d s :=
    {| now := now s + d; queue := queue s; arrivals := arrivals s;
       faults := faults s; outbox := outbox s |};
  send_telegram_message token chat_id m s :=
    (true, {| now := now s; queue := queue s; arrivals := arrivals s;
              faults := faults s; outbox := outbox s ++ [(chat_id, m)] |})
}.

(** A service that starts at time 0 with the given batches to deliver. *)
Definition serving (batches : list (list update)) : sim :=
  {| now := 0; queue := []; arrivals := batches; faults := [];
     outbox := [] |}.

(** The same, behind a network that fails as [fs] says. *)
Definition failing (fs : list (option failure))
    (batches : list (list update)) : sim :=
  {| now := 0; queue := []; arrivals := batches; faults := fs;
     outbox := [] |}.

(** A text message [text] with update id [i] from chat [id]. *)
Definition text_update (i : Z) (id : Z) (t : string) : update :=
  {| update_id := Some i;
     msg := Some {| chat := ChatId (IdInt id); text := TextStr (lit t);
                    from_ := FromDict (Some (lit "Alice")) |} |}.

(** An update without a ['message'] key (an edited message, a poll...). *)
Definition other_update (i : Z) : update :=
  {| update_id := Some i; msg := None |}.

End Sim.

(** ** The operator's side: keyboard, identity check, files

    The rest of [setup_telegram]: the questions it asks, the check of the
    token, and the write of the [.env] file. *)

(** What [input()] gives: a line without its newline, or [EOFError]. *)
Inductive input_result :=
| Line (line : str)
| EOFError.

(** The ['result'] object of [getMe] as far as the code looks at it: the
    two keys it reads and whether the object has any other key. *)
Record bot_info := {
  username : option str;
  first_name : option str;
  more_keys : bool
}.

(** The truth value of the object: a [dict] is true unless it is empty. *)
Definition truthy (b : bot_info) : bool :=
  match username b, first_name b with
  | None, None => more_keys b
  | _, _ => true
  end.

(** The outcome of [urlopen(".../getMe")], [resp.read()], [json.loads]:
    an exception, or the ['ok'] flag and [result.get('result')]. *)
Inductive getme_fetch :=
| GetMeFailed
| GetMeReply (ok : bool) (result : option bot_info).

(** [env_file.exists()] and what [open(env_file, 'r')] finds: no file,
    the content of the file, or an exception. *)
Inductive env_read :=
| EnvAbsent
| EnvContent (content : str)
| EnvReadError.

Class Host (W : Type) := {
  (** [input()] *)
  py_input : W -> input_result * W;
  (** [open('/dev/tty').readline()]; [None] when it raises *)
  tty_readline : W -> option str * W;
  (** the request of [verify_bot_token] *)
  getMe : str -> W -> getme_fetch * W;
  (** [env_file.exists()], [open(env_file, 'r')]: the content of the file *)
  read_env : W -> env_read * W;
  (** [open(env_file, 'w')] and [f.writelines]: the new content of the
      file; [false] when it raises *)
  write_env : str -> W -> bool * W;
  (** [os.environ[key] = value]; [false] when it raises *)
  set_environ : str -> str -> W -> bool * W
}.

(** [s.lower() == c] for [c] one of the letters [y], [n]: the only strings
    whose lower case is the one-letter string [c] are [c] itself and its
    capital. *)
Definition lower_is (c : char) (s : str) : bool :=
  eqb s [c] || eqb s [(c - 32)%N].

Definition letter_y : char := 121%N.
Definition letter_n : char := 110%N.

(** How a call of the setup ends. *)
Inductive ending :=
| Ended (value : bool)       (* the function returned [value] *)
| RaisedEOFError             (* an [EOFError] left the function *)
| Unfinished.                (* out of fuel *)

(** How the loop that asks for the token ends. *)
Inductive token_result :=
| TokenVerified (token : str) (info : bot_info)
| TokenGivenUp
| TokenUnfinished.

(** What a call of [setup_telegram] did. *)
Record setup_run (W : Type) := {
  su_ending : ending;
  su_tried : list str;               (* the tokens sent to [getMe] *)
  su_token : option str;             (* the token that was verified *)
  su_attempt : option (attempt W);   (* the pairing attempt *)
  su_read : option env_read;         (* what was read of the file *)
  su_write : option (str * bool);    (* what was written, and if it went *)
  su_world : W
}.
Arguments su_ending {W} s.
Arguments su_tried {W} s.
Arguments su_token {W} s.
Arguments su_attempt {W} s.
Arguments su_read {W} s.
Arguments su_write {W} s.
Arguments su_world {W} s.

Section Setup.

Context {W : Type} `{World W} `{Host W}.

(** [tty_input(prompt, default)] (lines 21-33) *)
Definition tty_input (default : str) (w : W) : str * W :=
  match py_input w with
  | (Line line, w1) =>
      (match strip line with [] => default | _ => strip line end, w1)
  | (EOFError, w1) =>
      match tty_readline w1 with
      | (Some line, w2) =>
          (match strip line with [] => default | _ => strip line end, w2)
      | (None, w2) => (default, w2)
      end
  end.

(** [verify_bot_token(token)] (lines 41-51) *)
Definition verify_bot_token (token : str) (w : W)
    : (bool * option bot_info) * W :=
  match getMe token w with
  | (GetMeReply true result, w1) => ((true, result), w1)
  | (GetMeReply false _, w1) => ((false, None), w1)
  | (GetMeFailed, w1) => ((false, None), w1)
  end.

(** Lines 192-213: [while not token]. *)
Fixpoint token_loop (fuel : nat) (tried : list str) (w : W)
    : token_result * list str * W :=
  match fuel with
  | O => (TokenUnfinished, tried, w)
  | S fuel' =>
      let (answer, w1) := tty_input [] w in
      let token_input := strip answer in
      match token_input with
      | [] => token_loop fuel' tried w1
      | _ =>
          let '((is_valid, bot_info), w2) :=
            verify_bot_token token_input w1 in
          let tried := tried ++ [token_input] in
          match is_valid, bot_info with
          | true, Some info =>
              if truthy info then (TokenVerified token_input info, tried, w2)
              else
                let (retry, w3) := tty_input [letter_y] w2 in
                if lower_is letter_n retry then (TokenGivenUp, tried, w3)
                else token_loop fuel' tried w3
          | _, _ =>
              let (retry, w3) := tty_input [letter_y] w2 in
              if lower_is letter_n retry then (TokenGivenUp, tried, w3)
              else token_loop fuel' tried w3
          end
      end
  end.

(** Lines 263-313: the [try] block that saves the credentials. *)
Definition persist (token chat_id : str) (w : W)
    : bool * env_read * option (str * bool) * W :=
  match read_env w with
  | (EnvReadError, w1) => (false, EnvReadError, None, w1)
  | (r, w1) =>
      let env_file :=
        match r with
        | EnvContent content => Some content
        | _ => None
        end in
      let content := Env.save_env_file token chat_id env_file in
      match write_env content w1 with
      | (false, w2) => (false, r, Some (content, false), w2)
      | (true, w2) =>
          match set_environ (lit "TELEGRAM_BOT_TOKEN") token w2 with
          | (false, w3) => (false, r, Some (content, true), w3)
          | (true, w3) =>
              match set_environ (lit "TELEGRAM_CHAT_ID") chat_id w3 with
              | (false, w4) => (false, r, Some (content, true), w4)
              | (true, w4) => (true, r, Some (content, true), w4)
              end
          end
      end
  end.

(** [setup_telegram(env_file)] (lines 160-313) *)
Definition setup_telegram (fuel : nat) (rand : nat -> nat) (w : W)
    : setup_run W :=
  let stop e tried token a w' :=
    {| su_ending := e; su_tried := tried; su_token := token;
       su_attempt := a; su_read := None; su_write := None;
       su_world := w' |} in
  let (setup, w1) := tty_input [letter_n] w in
  if negb (lower_is letter_y setup) then stop (Ended false) [] None None w1
  else
    match py_input w1 with
    | (EOFError, w2) => stop RaisedEOFError [] None None w2
    | (Line _, w2) =>
        match token_loop fuel [] w2 with
        | (TokenUnfinished, tried, w3) => stop Unfinished tried None None w3
        | (TokenGivenUp, tried, w3) => stop (Ended false) tried None None w3
        | (TokenVerified token info, tried, w3) =>
            let a := pairing_attempt fuel rand token w3 in
            let w4 :=
              match challenge a with
              | Some c => world c
              | None => world (handshake a)
              end in
            match paired a with
            | OutOfFuel => stop Unfinished tried (Some token) (Some a) w4
            | Returned None =>
                stop (Ended false) tried (Some token) (Some a) w4
            | Returned (Some chat_id) =>
                let (_, w5) :=
                  send_telegram_message token chat_id ConfirmMsg w4 in
                let '(saved, r, written, w6) := persist token chat_id w5 in
                {| su_ending := Ended saved; su_tried := tried;
                   su_token := Some token; su_attempt := Some a;
                   su_read := Some r; su_write := written;
                   su_world := w6 |}
            end
        end
    end.

End Setup.

(** ** A simulated operator, for concrete runs

    The simulated service, with a keyboard that types the given lines, a
    terminal device, the tokens the service knows, a disk that holds the
    [.env] file and the environment of the process.  A value with a NUL
    character cannot be put in the environment. *)

Module Desk.

Record desk := {
  net : Sim.sim;
  stdin : list str;                  (* then end of file *)
  tty : list str;                    (* then the device fails *)
  bots : list (str * bot_info);
  disk : env_read;
  writable : bool;
  environ : list (str * str)
}.

Definition with_net (d : desk) (n : Sim.sim) : desk :=
  {| net := n; stdin := stdin d; tty := tty d; bots := bots d;
     disk := disk d; writable := writable d; environ := environ d |}.

#[global] Instance desk_world : World desk := {
  time_time d := (fst (time_time (net d)), with_net d (snd (time_time (net d))));
  getUpdates token request d :=
    (fst (getUpdates token request (net d)),
     with_net d (snd (getUpdates token request (net d))));
  time_sleep s d := with_net d (time_sleep s (net d));
  send_telegram_message token chat_id m d :=
    (fst (send_telegram_message token chat_id m (net d)),
     with_net d (snd (send_telegram_message token chat_id m (net d))))
}.

Fixpoint lookup_bot (token : str) (l : list (str * bot_info))
    : option bot_info :=
  match l with
  | [] => None
  | (t, b) :: l' => if eqb t token then Some b else lookup_bot token l'
  end.

#[global] Instance desk_host : Host desk := {
  py_input d :=
    match stdin d with
    | [] => (EOFError, d)
    | line :: later =>
        (Line line,
         {| net := net d; stdin := later; tty := tty d; bots := bots d;
            disk := disk d; writable := writable d; environ := environ d |})
    end;
  tty_readline d :=
    match tty d with
    | [] => (None, d)
    | line :: later =>
        (Some line,
         {| net := net d; stdin := stdin d; tty := later; bots := bots d;
            disk := disk d; writable := writable d; environ := environ d |})
    end;
  getMe token d :=
    (match lookup_bot token (bots d) with
     | Some b => GetMeReply true (Some b)
     | None => GetMeReply false None
     end, d);
  read_env d := (disk d, d);
  write_env content d :=
    if writable d then
      (true,
       {| net := net d; stdin := stdin d; tty := tty d; bots := bots d;
          disk := EnvContent content; writable := true;
          environ := environ d |})
    else (false, d);
  set_environ key value d :=
    if existsb (N.eqb 0) value then (false, d)
    else
      (true,
       {| net := net d; stdin := stdin d; tty := tty d; bots := bots d;
          disk := disk d; writable := writable d;
          environ := (key, value) :: environ d |})
}.

(** The same desk with a [.env] file that cannot be opened and an
    environment that cannot be set. *)
Definition locked_host : Host desk := {|
  py_input := @py_input desk desk_host;
  tty_readline := @tty_readline desk desk_host;
  getMe := @getMe desk desk_host;
  read_env d := (EnvReadError, d);
  write_env _ d := (false, d);
  set_environ _ _ d := (false, d)
|}.

(** The bot of the end-to-end scenario. *)
Definition demo_bot : bot_info :=
  {| username := Some (lit "demo_bot"); first_name := Some (lit "Demo");
     more_keys := true |}.

(** An operator who types [keys], before a service that knows the token
    [T1] and delivers [batches], with the given [.env] file. *)
Definition seated (keys : list string) (batches : list (list update))
    (file : env_read) : desk :=
  {| net := Sim.serving batches; stdin := List.map lit keys; tty := [];
     bots := [(lit "T1", demo_bot)]; disk := file; writable := true;
     environ := [] |}.

End Desk.

(** ** [is_first_run] of [personality_setup.py] *)

Module Personality.








End Personality.

(** * The vocabulary of the properties *)

(** A decimal digit. *)
Definition is_digit (c : char) : Prop := (48 <= c <= 57)%N.

(** [u] is a message of chat [chat_id] whose stripped text is [/start]. *)
Definition starts (u : update) (chat_id : str) : Prop :=
  exists m id s,
    msg u = Some m /\ chat m = ChatId id /\ chat_id = str_of_chat_id id /\
    text m = TextStr s /\ strip s = lit "/start".

(** [u] is a message of chat [chat_id] whose stripped text is [code]. *)
Definition answers (chat_id code : str) (u : update) : Prop :=
  exists m id s,
    msg u = Some m /\ chat m = ChatId id /\ str_of_chat_id id = chat_id /\
    text m = TextStr s /\ strip s = code.

(** [u] comes from a conversation other than [chat_id]. *)
Definition foreign (chat_id : str) (u : update) : Prop :=
  exists m id,
    msg u = Some m /\ chat m = ChatId id /\ str_of_chat_id id <> chat_id.

(** The text of [u] begins with the command marker. *)
Definition command (u : update) : Prop :=
  exists m s,
    msg u = Some m /\ text m = TextStr s /\ startswith (lit "/") s = true.

(** Both bodies assign [offset] first, from the id of the update. *)
Definition assigns {A : Type} (body : update -> Z -> signal A * Z) : Prop :=
  forall u o,
    match update_id u with
    | None => body u o = (Raise, o)
    | Some i => snd (body u o) = i + 1
    end.

(** The ids that can be read off a batch. *)
Definition ids (updates : list update) : list Z :=
  flat_map (fun u => match update_id u with Some i => [i] | None => [] end)
    updates.

(** A message with a chat id and a text. *)
Definition text_message (i : Z) (id : chat_ident) (s : str)
    (sender : from_field) : update :=
  {| update_id := Some i;
     msg := Some {| chat := ChatId id; text := TextStr s; from_ := sender |} |}.

(** The code ["482913"], as six draws of [generate_pairing_code]. *)
Definition draws_482913 (i : nat) : nat := nth i [4; 8; 2; 9; 1; 3]%nat 0%nat.

(** The updates a logged poll handed to the [for] loop. *)
Definition delivered (e : poll) : list update :=
  match lg_response e with
  | Reply true updates => updates
  | _ => []
  end.

(** All ids seen during a run, in order. *)
Definition observed (l : list poll) : list Z := concat (List.map lg_seen l).

(** The cursor is handed from one poll to the next. *)
Fixpoint chained (o : Z) (l : list poll) (final : Z) : Prop :=
  match l with
  | [] => final = o
  | e :: l' => lg_offset e = o /\ chained (lg_after e) l' final
  end.

(** The signal with which the [try] block of a logged poll ended. *)
Definition signal_of {A : Type} (body : update -> Z -> signal A * Z)
    (e : poll) : signal A :=
  fst (fst (round body (lg_response e) (lg_offset e))).

(** A logged poll is what the code did with the answer it got. *)
Definition entry_ok {A : Type} (request : Z -> option Z)
    (body : update -> Z -> signal A * Z) (start_time timeout : Z)
    (e : poll) : Prop :=
  lg_clock e - start_time < timeout /\
  lg_request e = request (lg_offset e) /\
  round body (lg_response e) (lg_offset e)
  = (signal_of body e, lg_after e, lg_seen e).

(** The [try] block of a logged poll did not end with a [return]. *)
Definition quiet {A : Type} (body : update -> Z -> signal A * Z)
    (e : poll) : Prop :=
  forall v, signal_of body e <> Return v.

(** The reading [time.time()] would give. *)
Definition clock {W : Type} `{World W} (w : W) : Z := fst (time_time w).

(** Reading the clock and talking to the service do not set the clock
    back, and [time.sleep(d)] lasts at least [d]. *)
Record ticking {W : Type} `{World W} : Prop := {
  time_time_steady : forall w, clock w <= clock (snd (time_time w));
  getUpdates_forward : forall token req w,
    clock w <= clock (snd (getUpdates token req w));
  time_sleep_forward : forall d w, clock w + d <= clock (time_sleep d w)
}.

(** The largest of [i] and the elements of [l]. *)
Definition maximum (i : Z) (l : list Z) : Z := fold_left Z.max l i.

(** Ids in the order the service numbers them: ascending, from 0 up. *)
Definition ascending (l : list Z) : Prop :=
  StronglySorted Z.le l /\ Forall (fun i => 0 <= i) l.

(** The cursor a list of seen ids leaves, from [o]. *)
Definition cursor_after (o : Z) (seen : list Z) : Z :=
  last (List.map Z.succ seen) o.

(** What the run of either phase says about its cursor. *)
Definition follows_last_id (final : Z) (l : list poll) : Prop :=
  chained 0 l final /\
  final = cursor_after 0 (observed l).

(** The cursor is 1 + the largest id seen, and no poll lowered it. *)
Definition is_maximum_and_monotone (final : Z) (l : list poll) : Prop :=
  match observed l with
  | [] => final = 0
  | i :: rest => final = 1 + maximum i rest
  end /\
  Forall (fun e => lg_offset e <= lg_after e) l.



(** Decidable forms of [starts] and [answers], to check a concrete log. *)
Definition startsb (u : update) : bool :=
  match msg u with
  | Some m =>
      match chat m, text m with
      | ChatId _, TextStr s => eqb (strip s) (lit "/start")
      | _, _ => false
      end
  | None => false
  end.

Definition answersb (chat_id code : str) (u : update) : bool :=
  match msg u with
  | Some m =>
      match chat m, text m with
      | ChatId id, TextStr s =>
          eqb (str_of_chat_id id) chat_id && eqb (strip s) code
      | _, _ => false
      end
  | None => false
  end.

(** No update that a logged poll delivered passes the test [p]. *)
Definition none_delivered (p : update -> bool) (l : list poll) : Prop :=
  forall e u, In e l -> In u (delivered e) -> p u = false.

(** A string as [strip()] leaves it, and not empty. *)
Definition normal (t : str) : Prop :=
  t <> [] /\ lstrip t = t /\ rstrip t = t.

(** A text message as the service sends it: an id, a chat with its id, a
    text, and a sender that is absent or an object. *)
Definition text_from (u : update) : Prop :=
  exists i id s sender,
    u = text_message i id s sender /\ sender <> FromOther.

(** The answer of the service carried no update to the loop: the request
    failed, or the service refused it ([ok] false). *)
Definition refused (e : poll) : Prop :=
  match lg_response e with
  | Reply true _ => False
  | _ => True
  end.

(** A string of white space only (the empty one too). *)
Definition blank (s : str) : Prop := Forall (fun c => isspace c = true) s.

(** A string that is not empty and whose first and last characters are
    not white space. *)
Definition trimmed (t : str) : Prop :=
  t <> [] /\ isspace (hd 32%N t) = false /\ isspace (last t 32%N) = false.

(** What [tty_input] makes of a line it read: the default when the line
    is blank, and otherwise the line without the white space before its
    first and after its last character that is not white space. *)
Definition taken (default line answer : str) : Prop :=
  (blank line /\ answer = default) \/
  (exists before after,
      line = before ++ answer ++ after /\ blank before /\ blank after /\
      trimmed answer).

(** Two hosts with the same keyboard, terminal and identity check: they
    can differ by the [.env] file and the environment of the process. *)
Definition same_console {W : Type} (H1 H2 : Host W) : Prop :=
  (forall w, @py_input W H1 w = @py_input W H2 w) /\
  (forall w, @tty_readline W H1 w = @tty_readline W H2 w) /\
  (forall token w, @getMe W H1 token w = @getMe W H2 token w).

(** The run of [setup_telegram] went through the whole protocol: the
    token, stripped and not empty, is the last one sent to [getMe], which
    answered [ok] with a description of the bot; the pairing attempt began
    in the state this answer left; its handshake returned the chat id on
    a delivered [/start], its challenge returned [True] on a delivered
    answer of that chat; after the confirmation message the file was
    read, the merge of the token and the chat id into it was written, and
    both were put in the environment of the process. *)
Definition went_through {W : Type} `{World W} `{Host W} (fuel : nat)
    (rand : nat -> nat) (r : setup_run W) : Prop :=
  exists token info earlier w2 w3 chat_id c old w6 w7 w8,
    su_token r = Some token /\ normal token /\
    su_tried r = earlier ++ [token] /\
    getMe token w2 = (GetMeReply true (Some info), w3) /\
    truthy info = true /\
    su_attempt r = Some (pairing_attempt fuel rand token w3) /\
    result (handshake (pairing_attempt fuel rand token w3))
    = Returned (Some chat_id) /\
    challenge (pairing_attempt fuel rand token w3) = Some c /\
    result c = Returned true /\
    (exists e u,
        In e (log (handshake (pairing_attempt fuel rand token w3))) /\
        In u (delivered e) /\ starts u chat_id) /\
    (exists e u, In e (log c) /\ In u (delivered e) /\
                 answers chat_id (generate_pairing_code rand) u) /\
    read_env (snd (send_telegram_message token chat_id ConfirmMsg (world c)))
    = (old, w6) /\
    old <> EnvReadError /\
    write_env
      (Env.save_env_file token chat_id
         (match old with
          | EnvContent content => Some content
          | _ => None
          end)) w6
    = (true, w7) /\
    set_environ (lit "TELEGRAM_BOT_TOKEN") token w7 = (true, w8) /\
    set_environ (lit "TELEGRAM_CHAT_ID") chat_id w8 = (true, su_world r) /\
    su_read r = Some old /\
    su_write r
    = Some (Env.save_env_file token chat_id
              (match old with
               | EnvContent content => Some content
               | _ => None
               end), true).

(** The string is empty or begins with a character that is no space. *)
Definition clean_head (t : str) : Prop :=
  match t with
  | [] => True
  | c :: _ => isspace c = false
  end.

(** The body of a loop tells by a test which messages make it return. *)
Definition decides {A : Type} (body : update -> Z -> signal A * Z)
    (test : update -> bool) (value : update -> A) : Prop :=
  forall i id s sender o,
    sender <> FromOther ->
    body (text_message i id s sender) o
    = (if test (text_message i id s sender)
       then Return (value (text_message i id s sender)) else Next, i + 1).

(** The chat id [str(chat['id'])] of a message, [[]] without one. *)
Definition chat_of (u : update) : str :=
  match msg u with
  | Some m =>
      match chat m with
      | ChatId id => str_of_chat_id id
      | _ => []
      end
  | None => []
  end.

(** Decidable form of [refused]. *)
Definition refusedb (e : poll) : bool :=
  match lg_response e with
  | Reply true _ => false
  | _ => true
  end.

(** The answer to a poll honours the requested offset: the ids it
    carries are strictly ascending and none is below the cursor of the
    request. *)
Definition honours (e : poll) : Prop :=
  StronglySorted Z.lt (ids (delivered e)) /\
  Forall (fun i => lg_offset e <= i) (ids (delivered e)).

(** Decidable forms, to check a concrete log. *)
Fixpoint sortedb (l : list Z) : bool :=
  match l with
  | [] => true
  | i :: l' => forallb (fun j => i <? j) l' && sortedb l'
  end.

Definition honoursb (e : poll) : bool :=
  sortedb (ids (delivered e))
  && forallb (fun i => lg_offset e <=? i) (ids (delivered e)).

(** * Properties *)

(** ** Strings *)

Lemma eqb_eq (a b : str) : eqb a b = true <-> a = b.
Proof.
  revert b; induction a as [|x a IH]; intros [|y b]; simpl;
    try (split; [discriminate | discriminate]); try tauto.
  rewrite andb_true_iff, N.eqb_eq, IH.
  split; [intros [-> ->]; reflexivity | intros E; inversion E; auto].
Qed.

Lemma eqb_refl (a : str) : eqb a a = true.
Proof. apply eqb_eq; reflexivity. Qed.

Lemma eqb_neq (a b : str) : eqb a b = false <-> a <> b.
Proof.
  rewrite <- eqb_eq. destruct (eqb a b); split; congruence.
Qed.

Lemma rstrip_keeps_head (c : char) (s : str) :
  isspace c = false -> exists r, rstrip (c :: s) = c :: r.
Proof.
  intros Hc; simpl. destruct (rstrip s) as [|d r].
  - rewrite Hc. exists []; reflexivity.
  - exists (d :: r); reflexivity.
Qed.

Lemma strip_keeps_head (c : char) (s : str) :
  isspace c = false -> exists r, strip (c :: s) = c :: r.
Proof.
  intros Hc. unfold strip. simpl lstrip. rewrite Hc.
  apply rstrip_keeps_head; assumption.
Qed.

(** A text that begins with the command marker still does once stripped. *)
Lemma strip_command (s : str) :
  startswith (lit "/") s = true -> startswith (lit "/") (strip s) = true.
Proof.
  destruct s as [|c s]; [discriminate|].
  intros H. change (N.eqb slash c && true = true) in H.
  rewrite andb_true_r in H. apply N.eqb_eq in H. subst c.
  destruct (strip_keeps_head slash s eq_refl) as [r ->].
  reflexivity.
Qed.

Lemma digits_nth (k : nat) :
  (48 <= nth k digits 48 <= 57)%N.
Proof.
  do 10 (destruct k as [|k]; [vm_compute; split; discriminate|]).
  destruct k; vm_compute; split; discriminate.
Qed.

(** ** The issued code *)

Lemma generate_pairing_code_digits (rand : nat -> nat) :
  length (generate_pairing_code rand) = 6%nat /\
  Forall is_digit (generate_pairing_code rand).
Proof.
  unfold generate_pairing_code. split.
  - rewrite length_map, length_seq. reflexivity.
  - apply Forall_map, Forall_forall. intros i _. apply digits_nth.
Qed.

Lemma generate_pairing_code_nonempty (rand : nat -> nat) :
  generate_pairing_code rand <> [].
Proof.
  intros E. pose proof (proj1 (generate_pairing_code_digits rand)) as L.
  rewrite E in L. discriminate.
Qed.

Lemma generate_pairing_code_not_command (rand : nat -> nat) :
  startswith (lit "/") (generate_pairing_code rand) = false.
Proof.
  destruct (generate_pairing_code_digits rand) as [L D].
  destruct (generate_pairing_code rand) as [|c r]; [discriminate|].
  inversion D as [|? ? Hc _]; subst.
  change (N.eqb slash c && true = false).
  rewrite andb_true_r. apply N.eqb_neq. unfold is_digit, slash in *. lia.
Qed.

(** ** One update *)

Lemma stripped_text_nonempty (m : message) (t : str) :
  stripped_text m = Some t -> t <> [] ->
  exists s, text m = TextStr s /\ strip s = t.
Proof.
  unfold stripped_text. destruct (text m) as [|s|]; intros E Ht.
  - inversion E; subst. exfalso; apply Ht; reflexivity.
  - inversion E; subst. exists s; auto.
  - discriminate.
Qed.

Lemma start_update_Return (u : update) (o o' : Z) (v : option str) :
  start_update u o = (Return v, o') ->
  exists c, v = Some c /\ starts u c /\ update_id u = Some (o' - 1).
Proof.
  unfold start_update.
  destruct (update_id u) as [i|]; [|discriminate].
  destruct (msg u) as [m|] eqn:Em; [|discriminate].
  destruct (chat m) as [| |id] eqn:Ec; [discriminate| |].
  - destruct (stripped_text m) as [t|]; [|discriminate].
    destruct (eqb t (lit "/start")); discriminate.
  - destruct (stripped_text m) as [t|] eqn:Et; [|discriminate].
    destruct (eqb t (lit "/start")) eqn:E; [|discriminate].
    destruct (user_name m) as [name|]; [|discriminate].
    intros H; inversion H; subst.
    apply eqb_eq in E; subst t.
    destruct (stripped_text_nonempty m _ Et) as [s [Hs Hst]]; [discriminate|].
    exists (str_of_chat_id id). repeat split.
    + exists m, id, s. auto.
    + f_equal. lia.
Qed.

Lemma pairing_update_Return (chat_id code : str) (u : update) (o o' : Z)
    (v : bool) :
  code <> [] ->
  pairing_update chat_id code u o = (Return v, o') ->
  v = true /\ answers chat_id code u /\ update_id u = Some (o' - 1).
Proof.
  intros Hcode. unfold pairing_update.
  destruct (update_id u) as [i|]; [|discriminate].
  destruct (msg u) as [m|] eqn:Em; [|discriminate].
  destruct (chat m) as [| |id] eqn:Ec; [discriminate| |].
  - destruct (stripped_text m); discriminate.
  - destruct (stripped_text m) as [t|] eqn:Et; [|discriminate].
    destruct (eqb (str_of_chat_id id) chat_id) eqn:Eid; [|discriminate].
    destruct (eqb t code) eqn:E.
    + intros H; inversion H; subst.
      apply eqb_eq in E; subst t. apply eqb_eq in Eid.
      destruct (stripped_text_nonempty m _ Et Hcode) as [s [Hs Hst]].
      repeat split.
      * exists m, id, s. auto.
      * f_equal. lia.
    + destruct (startswith (lit "/") t); discriminate.
Qed.

Lemma start_update_assigns : assigns start_update.
Proof.
  intros u o. unfold start_update.
  destruct (update_id u); [|reflexivity].
  destruct (msg u) as [m|]; [|reflexivity].
  destruct (chat m); [reflexivity| |];
    destruct (stripped_text m); try reflexivity;
    destruct (eqb _ _); try reflexivity.
  destruct (user_name m); reflexivity.
Qed.

Lemma pairing_update_assigns (chat_id code : str) :
  assigns (pairing_update chat_id code).
Proof.
  intros u o. unfold pairing_update.
  destruct (update_id u); [|reflexivity].
  destruct (msg u) as [m|]; [|reflexivity].
  destruct (chat m); [reflexivity| |];
    destruct (stripped_text m); try reflexivity.
  destruct (eqb _ chat_id); [|reflexivity].
  destruct (eqb _ code); [reflexivity|].
  destruct (startswith _ _); reflexivity.
Qed.

(** ** One batch *)

Lemma last_cons {A : Type} (a d : A) (l : list A) :
  last (a :: l) d = last l a.
Proof.
  revert a d; induction l as [|b l IH]; intros a d; [reflexivity|].
  change (last (a :: b :: l) d) with (last (b :: l) d).
  rewrite (IH b d), (IH b a). reflexivity.
Qed.

Section Batch.

Context {A : Type} (body : update -> Z -> signal A * Z).

(** [offset] is one more than the last id the loop assigned from. *)
Lemma for_updates_offset (Hb : assigns body) (updates : list update)
    (o : Z) :
  snd (fst (for_updates body updates o))
  = last (List.map Z.succ (snd (for_updates body updates o))) o.
Proof.
  revert o; induction updates as [|u rest IH]; intros o; [reflexivity|].
  simpl. pose proof (Hb u o) as Hu.
  destruct (update_id u) as [i|].
  - destruct (body u o) as [s o1]. simpl in Hu; subst o1.
    destruct s; try reflexivity.
    specialize (IH (i + 1)).
    destruct (for_updates body rest (i + 1)) as [[s' o'] seen].
    simpl fst in *; simpl snd in *.
    change (o' = last (Z.succ i :: List.map Z.succ seen) o).
    rewrite last_cons. exact IH.
  - rewrite Hu. reflexivity.
Qed.

(** The loop visits the updates in order: what it has seen is a prefix
    of the ids of the batch, and all of them when it was not left early. *)
Lemma for_updates_seen (updates : list update) (o : Z) :
  exists rest, ids updates = snd (for_updates body updates o) ++ rest.
Proof.
  revert o; induction updates as [|u us IH]; intros o.
  - exists []; reflexivity.
  - simpl. destruct (body u o) as [s o1].
    destruct s.
    + destruct (IH o1) as [rest E].
      destruct (for_updates body us o1) as [[s' o'] seen].
      simpl in *. exists rest. rewrite E, app_assoc. reflexivity.
    + exists (ids us). reflexivity.
    + exists (ids us). reflexivity.
Qed.

Lemma for_updates_Return (updates : list update) (o o' : Z) (v : A)
    (seen : list Z) :
  for_updates body updates o = (Return v, o', seen) ->
  exists u o1, In u updates /\ body u o1 = (Return v, o').
Proof.
  revert o seen; induction updates as [|u us IH]; intros o seen;
    [discriminate|].
  simpl. destruct (body u o) as [s o1] eqn:Eb. destruct s.
  - destruct (for_updates body us o1) as [[s' o''] seen'] eqn:Ef.
    intros E; inversion E; subst.
    destruct (IH _ _ Ef) as [x [ox [Hin Hx]]].
    exists x, ox. split; [right; assumption | assumption].
  - intros E; inversion E; subst.
    exists u, o. split; [left; reflexivity | assumption].
  - discriminate.
Qed.

(** A batch none of whose updates makes the body return is not left by
    a [return]. *)
Lemma for_updates_quiet (updates : list update) (o : Z) :
  Forall (fun u => forall o1 v, fst (body u o1) <> Return v) updates ->
  forall v, fst (fst (for_updates body updates o)) <> Return v.
Proof.
  intros Hq v E.
  destruct (for_updates body updates o) as [[s o'] seen] eqn:Ef.
  simpl in E; subst s.
  destruct (for_updates_Return _ _ _ _ _ Ef) as [u [o1 [Hin Hu]]].
  rewrite Forall_forall in Hq.
  apply (Hq u Hin o1 v). rewrite Hu. reflexivity.
Qed.

Lemma round_offset (Hb : assigns body) (resp : fetch) (o : Z) :
  snd (fst (round body resp o))
  = last (List.map Z.succ (snd (round body resp o))) o.
Proof.
  destruct resp as [e|[|] updates]; try reflexivity.
  apply for_updates_offset; assumption.
Qed.

Lemma round_Return (resp : fetch) (o o' : Z) (v : A) (seen : list Z) :
  round body resp o = (Return v, o', seen) ->
  exists updates u o1,
    resp = Reply true updates /\ In u updates /\ body u o1 = (Return v, o').
Proof.
  destruct resp as [e|[|] updates]; try discriminate.
  simpl. intros E.
  destruct (for_updates_Return _ _ _ _ _ E) as [u [o1 [Hin Hu]]].
  exists updates, u, o1. auto.
Qed.

End Batch.

(** ** The polling loop *)

Section LoopFacts.

Context {W : Type} `{World W} {A : Type}.
Variable request : Z -> option Z.
Variable body : update -> Z -> signal A * Z.
Variable on_timeout : A.

Local Abbreviation loop := (poll_loop request body on_timeout).

Ltac loop_step :=
  simpl;
  let now := fresh "now" in
  let w1 := fresh "w1" in
  let resp := fresh "resp" in
  let w2 := fresh "w2" in
  let s := fresh "s" in
  let o' := fresh "o'" in
  let seen := fresh "seen" in
  destruct (time_time _) as [now w1] eqn:Et;
  destruct (now - _ <? _) eqn:Eg;
  [ destruct (getUpdates _ _ w1) as [resp w2] eqn:Ef;
    destruct (round body resp _) as [[s o'] seen] eqn:Er;
    destruct s; simpl
  | simpl ].

Lemma poll_loop_entries (fuel : nat) (token : str)
    (start_time timeout offset : Z) (w : W) :
  Forall (entry_ok request body start_time timeout)
    (log (loop fuel token start_time timeout offset w)).
Proof.
  revert offset w; induction fuel as [|fuel IH]; intros offset w;
    [constructor|].
  assert (Hentry : forall now resp s o' seen,
    (now - start_time <? timeout) = true ->
    round body resp offset = (s, o', seen) ->
    entry_ok request body start_time timeout
      {| lg_clock := now; lg_offset := offset;
         lg_request := request offset; lg_response := resp;
         lg_seen := seen; lg_after := o' |}).
  { intros now resp s o' seen Hg Hr. unfold entry_ok, signal_of; simpl.
    rewrite Hr. apply Z.ltb_lt in Hg. auto. }
  loop_step; try constructor; eauto.
Qed.

Lemma poll_loop_chained (fuel : nat) (token : str)
    (start_time timeout offset : Z) (w : W) :
  let r := loop fuel token start_time timeout offset w in
  chained offset (log r) (offset_end r).
Proof.
  revert offset w; induction fuel as [|fuel IH]; intros offset w;
    [reflexivity|].
  loop_step; try (split; [reflexivity|]); try apply IH; reflexivity.
Qed.

(** How a run ends: by the guard, by a [return] in its last poll, or
    not yet. *)
Lemma poll_loop_result (fuel : nat) (token : str)
    (start_time timeout offset : Z) (w : W) :
  let r := loop fuel token start_time timeout offset w in
  match result r, expired r with
  | Returned v, Some t =>
      timeout <= t - start_time /\ v = on_timeout /\ Forall (quiet body) (log r)
  | Returned v, None =>
      exists l e, log r = l ++ [e] /\ Forall (quiet body) l /\ signal_of body e = Return v
  | OutOfFuel, Some _ => False
  | OutOfFuel, None => Forall (quiet body) (log r)
  end.
Proof.
  revert offset w; induction fuel as [|fuel IH]; intros offset w;
    [constructor|].
  assert (Hq : forall now resp s o' seen,
    round body resp offset = (s, o', seen) ->
    (forall v, s <> Return v) ->
    quiet body {| lg_clock := now; lg_offset := offset;
             lg_request := request offset; lg_response := resp;
             lg_seen := seen; lg_after := o' |}).
  { intros now resp s o' seen Hr Hs v. unfold signal_of; simpl.
    rewrite Hr. apply Hs. }
  loop_step.
  - specialize (IH o' (time_sleep 2 w2)). simpl in IH.
    pose proof (Hq now resp _ _ _ Er ltac:(discriminate)) as Hq1.
    destruct (result _); destruct (expired _); try tauto.
    + destruct IH as (? & ? & ?). repeat split; auto.
    + destruct IH as (l & e & -> & Hl & He).
      eexists (_ :: l), e. repeat split; auto.
    + constructor; auto.
  - eexists [], _. repeat split; [constructor|].
    unfold signal_of; simpl. rewrite Er. reflexivity.
  - specialize (IH o' (time_sleep 2 w2)). simpl in IH.
    pose proof (Hq now resp _ _ _ Er ltac:(discriminate)) as Hq1.
    destruct (result _); destruct (expired _); try tauto.
    + destruct IH as (? & ? & ?). repeat split; auto.
    + destruct IH as (l & e & -> & Hl & He).
      eexists (_ :: l), e. repeat split; auto.
    + constructor; auto.
  - apply Z.ltb_ge in Eg. repeat split; [assumption | constructor].
Qed.

(** A failed request: nothing is seen, [offset] is kept, the loop sleeps
    and goes back to its guard. *)
Lemma poll_loop_Failed (fuel : nat) (token : str)
    (start_time timeout offset : Z) (w : W) (f : failure) :
  (fst (time_time w) - start_time <? timeout) = true ->
  fst (getUpdates token (request offset) (snd (time_time w))) = Failed f ->
  let w2 := snd (getUpdates token (request offset) (snd (time_time w))) in
  let r := loop fuel token start_time timeout offset (time_sleep 2 w2) in
  loop (S fuel) token start_time timeout offset w
  = {| result := result r; offset_end := offset_end r;
       log := {| lg_clock := fst (time_time w); lg_offset := offset;
                 lg_request := request offset; lg_response := Failed f;
                 lg_seen := []; lg_after := offset |} :: log r;
       expired := expired r; world := world r |}.
Proof.
  simpl. destruct (time_time w) as [now w1]. simpl. intros -> Hf.
  destruct (getUpdates token (request offset) w1) as [resp w2].
  simpl in *. subst resp. reflexivity.
Qed.

(** A value comes back either from the guard or from an update that the
    last poll delivered. *)
Lemma poll_loop_Returned (fuel : nat) (token : str)
    (start_time timeout offset : Z) (w : W) (v : A) :
  let r := loop fuel token start_time timeout offset w in
  result r = Returned v ->
  (exists t, expired r = Some t /\ timeout <= t - start_time /\
             v = on_timeout) \/
  (expired r = None /\
   exists l e u o1,
     log r = l ++ [e] /\ In u (delivered e) /\
     body u o1 = (Return v, lg_after e) /\ offset_end r = lg_after e).
Proof.
  intros r Hres.
  pose proof (poll_loop_result fuel token start_time timeout offset w) as Hr.
  pose proof (poll_loop_entries fuel token start_time timeout offset w) as He.
  pose proof (poll_loop_chained fuel token start_time timeout offset w) as Hc.
  fold r in Hr, He, Hc. simpl in Hr, Hc. rewrite Hres in Hr.
  destruct (expired r) as [t|].
  - left. exists t. tauto.
  - right. split; [reflexivity|].
    destruct Hr as (l & e & El & _ & Hs).
    rewrite El in He, Hc. apply Forall_app in He. destruct He as [_ He].
    inversion He as [|? ? (_ & _ & Hround) _]; subst.
    rewrite Hs in Hround.
    destruct (round_Return _ _ _ _ _ _ Hround) as (us & u & o1 & Hresp & Hin & Hu).
    exists l, e, u, o1. repeat split; auto.
    + unfold delivered. rewrite Hresp. assumption.
    + clear - Hc. revert Hc. generalize offset.
      induction l as [|x l IH]; simpl; intros o Hc.
      * destruct Hc as [_ Hc]. assumption.
      * destruct Hc as [_ Hc]. eapply IH; eassumption.
Qed.

(** *** Termination under a clock that moves forward *)

Lemma poll_loop_returns (Hclock : ticking) (fuel : nat) (token : str)
    (start_time timeout offset : Z) (w : W) :
  (Z.to_nat (timeout - (clock w - start_time)) < fuel)%nat ->
  exists v, result (loop fuel token start_time timeout offset w) = Returned v.
Proof.
  revert offset w; induction fuel as [|fuel IH]; intros offset w Hfuel;
    [lia|].
  assert (Hnext : forall w2 o',
    (clock w - start_time <? timeout) = true ->
    clock (snd (time_time w)) <= clock w2 ->
    exists v,
      result (loop fuel token start_time timeout o' (time_sleep 2 w2))
      = Returned v).
  { intros w2 o' Hg Hw2. apply IH. apply Z.ltb_lt in Hg.
    pose proof (time_time_steady Hclock w).
    pose proof (time_sleep_forward Hclock 2 w2). lia. }
  unfold clock in Hnext at 1.
  pose proof (getUpdates_forward Hclock token (request offset)
                (snd (time_time w))) as Hfetch.
  loop_step; simpl in *; try (rewrite Ef in Hfetch; simpl in Hfetch);
    eauto.
Qed.

End LoopFacts.

(** ** The two phases *)

Section Phases.

Context {W : Type} `{World W}.

Lemma wait_for_start_command_eq (fuel : nat) (token : str) (timeout : Z)
    (w : W) :
  wait_for_start_command fuel token timeout w
  = poll_loop start_request start_update None fuel token
      (clock w) timeout 0 (snd (time_time w)).
Proof.
  unfold wait_for_start_command, clock. destruct (time_time w); reflexivity.
Qed.

Lemma wait_for_pairing_code_eq (fuel : nat) (token chat_id code : str)
    (timeout : Z) (w : W) :
  wait_for_pairing_code fuel token chat_id code timeout w
  = poll_loop pairing_request (pairing_update chat_id code) false fuel token
      (clock w) timeout 0 (snd (time_time w)).
Proof.
  unfold wait_for_pairing_code, clock. destruct (time_time w); reflexivity.
Qed.

(** The handshake hands back a chat id only from an update that
    [starts], delivered by its last poll. *)
Lemma wait_for_start_command_Some (fuel : nat) (token : str) (timeout : Z)
    (w : W) (c : str) :
  let r := wait_for_start_command fuel token timeout w in
  result r = Returned (Some c) ->
  exists l e u,
    log r = l ++ [e] /\ In u (delivered e) /\ starts u c /\
    update_id u = Some (offset_end r - 1).
Proof.
  intros r. subst r. rewrite wait_for_start_command_eq. intros Hres.
  apply poll_loop_Returned in Hres.
  destruct Hres as [(t & _ & _ & E) | (_ & l & e & u & o1 & El & Hin & Hu & Ho)];
    [discriminate|].
  apply start_update_Return in Hu. destruct Hu as (c' & Ec & Hs & Hid).
  inversion Ec; subst c'.
  exists l, e, u. rewrite Ho. auto.
Qed.

(** [None] comes from the guard alone. *)
Lemma wait_for_start_command_None (fuel : nat) (token : str) (timeout : Z)
    (w : W) :
  let r := wait_for_start_command fuel token timeout w in
  result r = Returned None ->
  exists t, expired r = Some t /\ timeout <= t - clock w.
Proof.
  intros r. subst r. rewrite wait_for_start_command_eq. intros Hres.
  apply poll_loop_Returned in Hres.
  destruct Hres as [(t & Ht & Hle & _) | (_ & l & e & u & o1 & _ & _ & Hu & _)].
  - exists t; auto.
  - apply start_update_Return in Hu. destruct Hu as (c' & Ec & _).
    discriminate.
Qed.

(** [True] comes only from an update that [answers], delivered by the
    last poll. *)
Lemma wait_for_pairing_code_True (fuel : nat) (token chat_id code : str)
    (timeout : Z) (w : W) :
  let r := wait_for_pairing_code fuel token chat_id code timeout w in
  code <> [] ->
  result r = Returned true ->
  exists l e u,
    log r = l ++ [e] /\ In u (delivered e) /\ answers chat_id code u /\
    update_id u = Some (offset_end r - 1).
Proof.
  intros r Hcode. subst r. rewrite wait_for_pairing_code_eq. intros Hres.
  apply poll_loop_Returned in Hres.
  destruct Hres as [(t & _ & _ & E) | (_ & l & e & u & o1 & El & Hin & Hu & Ho)];
    [discriminate|].
  apply pairing_update_Return in Hu; [|assumption].
  destruct Hu as (_ & Ha & Hid).
  exists l, e, u. rewrite Ho. auto.
Qed.

(** [False] comes from the guard alone. *)
Lemma wait_for_pairing_code_False (fuel : nat) (token chat_id code : str)
    (timeout : Z) (w : W) :
  let r := wait_for_pairing_code fuel token chat_id code timeout w in
  code <> [] ->
  result r = Returned false ->
  exists t, expired r = Some t /\ timeout <= t - clock w.
Proof.
  intros r Hcode. subst r. rewrite wait_for_pairing_code_eq. intros Hres.
  apply poll_loop_Returned in Hres.
  destruct Hres as [(t & Ht & Hle & _) | (_ & l & e & u & o1 & _ & _ & Hu & _)].
  - exists t; auto.
  - apply pairing_update_Return in Hu; [|assumption].
    destruct Hu as (E & _). discriminate.
Qed.

End Phases.

Lemma answers_not_foreign (chat_id code : str) (u : update) :
  answers chat_id code u -> ~ foreign chat_id u.
Proof.
  intros (m & id & s & Em & Ec & Eid & _) (m' & id' & Em' & Ec' & Hne).
  rewrite Em in Em'. inversion Em'; subst m'.
  rewrite Ec in Ec'. inversion Ec'; subst id'. contradiction.
Qed.

Lemma answers_not_command (chat_id : str) (rand : nat -> nat) (u : update) :
  answers chat_id (generate_pairing_code rand) u -> ~ command u.
Proof.
  intros (m & id & s & Em & _ & _ & Et & Es) (m' & s' & Em' & Et' & Hc).
  rewrite Em in Em'. inversion Em'; subst m'.
  rewrite Et in Et'. inversion Et'; subst s'.
  apply strip_command in Hc. rewrite Es in Hc.
  rewrite generate_pairing_code_not_command in Hc. discriminate.
Qed.

(** What the challenge body does with a message of the bound chat. *)
Lemma pairing_update_bound (i : Z) (id : chat_ident) (s : str)
    (sender : from_field) (code : str) (o : Z) :
  pairing_update (str_of_chat_id id) code (text_message i id s sender) o
  = (if eqb (strip s) code then Return true else Next, i + 1).
Proof.
  unfold pairing_update, text_message, stripped_text.
  cbn [update_id msg chat text].
  rewrite eqb_refl.
  destruct (eqb (strip s) code); [reflexivity|].
  destruct (startswith (lit "/") (strip s)); reflexivity.
Qed.

(** * The claims *)

(** ** C1: how the challenge compares the text *)

(** C1, as stated, fails: the event text ["482913 "] (the code and a
    trailing space) differs from the issued code ["482913"], and yet the
    challenge body returns [True] on it, and so does the whole phase. *)
Lemma C1_trailing_space_is_matched :
  let code := generate_pairing_code draws_482913 in
  let u := Sim.text_update 2 777 "482913 " in
  code = lit "482913" /\
  lit "482913 " <> code /\
  pairing_update (lit "777") code u 0 = (Return true, 3) /\
  result (wait_for_pairing_code 5 (lit "T1") (lit "777") code 300
            (Sim.serving [[u]]))
  = Returned true.
Proof.
  repeat split; try (vm_compute; reflexivity).
  intros E; vm_compute in E; discriminate.
Qed.

(** C1, amended: the challenge body returns [True] on an update only if
    the update is a message of the bound chat whose text, once [strip()]
    has removed the white space around it, equals the issued code; for a
    message of the bound chat this is also sufficient.  The text
    ["482913a"] does not match the code ["482913"]. *)
Theorem C1_match_is_equality_of_stripped_text :
  forall (rand : nat -> nat) (i : Z) (id : chat_ident) (s : str)
         (sender : from_field) (o : Z),
    let code := generate_pairing_code rand in
    (forall chat_id u,
        fst (pairing_update chat_id code u o) = Return true ->
        answers chat_id code u) /\
    (fst (pairing_update (str_of_chat_id id) code
            (text_message i id s sender) o) = Return true
     <-> strip s = code) /\
    pairing_update (str_of_chat_id id) (lit "482913")
      (text_message i id (lit "482913a") sender) o
    = (Next, i + 1).
Proof.
  intros rand i id s sender o code. split; [|split].
  - intros chat_id u Hu.
    destruct (pairing_update chat_id code u o) as [sg o'] eqn:E.
    simpl in Hu; subst sg.
    apply pairing_update_Return in E;
      [tauto | apply generate_pairing_code_nonempty].
  - rewrite pairing_update_bound. simpl.
    destruct (eqb (strip s) code) eqn:E.
    + apply eqb_eq in E. tauto.
    + apply eqb_neq in E. split; [discriminate | contradiction].
  - rewrite pairing_update_bound. reflexivity.
Qed.

Lemma C1_witness :
  answers (lit "777") (generate_pairing_code draws_482913)
    (Sim.text_update 2 777 "  482913").
Proof.
  apply (proj1 (C1_match_is_equality_of_stripped_text
                  draws_482913 0 (IdInt 0) [] FromAbsent 0)).
  vm_compute. reflexivity.
Defined.

(** ** C2: foreign conversations and commands *)

(** C2: an update from a conversation other than the bound one, and an
    update whose text begins with [/], never make the challenge body
    return [True]; and whenever the phase returns [True] the update that
    did it, the one the cursor stopped at in the last poll, is a message
    of the bound chat that is not a command. *)
Theorem C2_foreign_and_commands_never_satisfy :
  forall {W : Type} `{World W} (fuel : nat) (token chat_id : str)
         (rand : nat -> nat) (timeout : Z) (w : W),
    let code := generate_pairing_code rand in
    let r := wait_for_pairing_code fuel token chat_id code timeout w in
    (forall u o, foreign chat_id u \/ command u ->
                 fst (pairing_update chat_id code u o) <> Return true) /\
    (result r = Returned true ->
     exists l e u,
       log r = l ++ [e] /\ In u (delivered e) /\
       update_id u = Some (offset_end r - 1) /\
       answers chat_id code u /\ ~ foreign chat_id u /\ ~ command u).
Proof.
  intros W HW fuel token chat_id rand timeout w code r. split.
  - intros u o Hu E.
    destruct (pairing_update chat_id code u o) as [sg o'] eqn:Ep.
    simpl in E; subst sg.
    apply pairing_update_Return in Ep;
      [|apply generate_pairing_code_nonempty].
    destruct Ep as (_ & Ha & _).
    destruct Hu as [Hf | Hc].
    + exact (answers_not_foreign _ _ _ Ha Hf).
    + exact (answers_not_command _ _ _ Ha Hc).
  - intros Hres.
    apply wait_for_pairing_code_True in Hres;
      [|apply generate_pairing_code_nonempty].
    destruct Hres as (l & e & u & El & Hin & Ha & Hid).
    exists l, e, u. repeat split; auto.
    + eapply answers_not_foreign. exact Ha.
    + eapply answers_not_command. exact Ha.
Qed.

Lemma C2_witness :
  let code := generate_pairing_code draws_482913 in
  let w := Sim.serving [[Sim.text_update 1 888 "482913";
                         Sim.text_update 2 777 "/482913"];
                        [Sim.text_update 3 777 "482913"]] in
  let r := wait_for_pairing_code 9 (lit "T1") (lit "777") code 300 w in
  fst (pairing_update (lit "777") code (Sim.text_update 1 888 "482913") 0)
  <> Return true /\
  fst (pairing_update (lit "777") code (Sim.text_update 2 777 "/482913") 0)
  <> Return true /\
  exists l e u,
    log r = l ++ [e] /\ In u (delivered e) /\
    update_id u = Some (offset_end r - 1) /\
    answers (lit "777") code u /\ ~ foreign (lit "777") u /\ ~ command u.
Proof.
  intros code w r.
  pose proof (C2_foreign_and_commands_never_satisfy
                9 (lit "T1") (lit "777") draws_482913 300 w) as [Hstep Hrun].
  split; [|split].
  - apply Hstep. left.
    eexists _, _. repeat split; try reflexivity.
    intros E; vm_compute in E; discriminate.
  - apply Hstep. right.
    eexists _, _. repeat split; reflexivity.
  - apply Hrun. vm_compute. reflexivity.
Defined.

(** ** C3: what ends the handshake *)

(** C3, as stated, fails: the text ["/start "] is not exactly the
    initiation signal, and the handshake returns the chat id from it. *)
Lemma C3_start_with_trailing_space_is_matched :
  let u := Sim.text_update 1 777 "/start " in
  lit "/start " <> lit "/start" /\
  start_update u 0 = (Return (Some (lit "777")), 2) /\
  result (wait_for_start_command 5 (lit "T1") 300 (Sim.serving [[u]]))
  = Returned (Some (lit "777")).
Proof.
  repeat split; try (vm_compute; reflexivity).
  intros E; vm_compute in E; discriminate.
Qed.

(** C3, amended: the handshake returns a chat id only from an update
    whose text, once [strip()] has removed the white space around it, is
    exactly [/start]: the body of the loop returns on no other update,
    and a run that returns a chat id took it from such an update,
    delivered by its last poll, while no earlier poll made it return. *)
Theorem C3_handshake_returns_on_stripped_start_only :
  forall {W : Type} `{World W} (fuel : nat) (token : str) (timeout : Z)
         (w : W),
    let r := wait_for_start_command fuel token timeout w in
    (forall u o v, fst (start_update u o) = Return v ->
                   exists c, v = Some c /\ starts u c) /\
    (forall c, result r = Returned (Some c) ->
     exists l e u,
       log r = l ++ [e] /\ In u (delivered e) /\
       update_id u = Some (offset_end r - 1) /\ starts u c /\
       Forall (fun e' => forall v,
                 signal_of start_update e' <> Return v) l).
Proof.
  intros W HW fuel token timeout w r. split.
  - intros u o v Hu.
    destruct (start_update u o) as [sg o'] eqn:E. simpl in Hu; subst sg.
    apply start_update_Return in E. destruct E as (c & ? & ? & _).
    exists c; auto.
  - intros c Hres.
    pose proof Hres as Hres'.
    apply wait_for_start_command_Some in Hres'.
    destruct Hres' as (l & e & u & El & Hin & Hs & Hid).
    exists l, e, u. repeat split; auto.
    subst r. rewrite wait_for_start_command_eq in *.
    pose proof (poll_loop_result start_request start_update None fuel token
                  (clock w) timeout 0 (snd (time_time w))) as Hr.
    simpl in Hr. rewrite Hres in Hr.
    destruct (expired _).
    + destruct Hr as (_ & E & _). discriminate.
    + destruct Hr as (l' & e' & El' & Hq & _).
      rewrite El in El'. apply app_inj_tail in El'.
      destruct El' as [-> _]. exact Hq.
Qed.

Lemma C3_witness :
  let w := Sim.serving [[Sim.text_update 1 888 "hello";
                         Sim.other_update 2];
                        [Sim.text_update 3 777 "/start"]] in
  let r := wait_for_start_command 9 (lit "T1") 300 w in
  exists l e u,
    log r = l ++ [e] /\ In u (delivered e) /\
    update_id u = Some (offset_end r - 1) /\ starts u (lit "777") /\
    Forall (fun e' => forall v, signal_of start_update e' <> Return v) l.
Proof.
  intros w r.
  apply (proj2 (C3_handshake_returns_on_stripped_start_only
                  9 (lit "T1") 300 w)).
  vm_compute. reflexivity.
Defined.

(** ** C10: a wrong code does not end the challenge *)

(** C10, as stated, fails: the text ["482913 "] of a message of the bound
    chat is neither the issued code nor a command, and it is not skipped:
    the phase returns [True] on it, after a single poll. *)
Lemma C10_unequal_text_ends_the_phase :
  let code := generate_pairing_code draws_482913 in
  let u := Sim.text_update 2 777 "482913 " in
  let r := wait_for_pairing_code 9 (lit "T1") (lit "777") code 300
             (Sim.serving [[u]; [Sim.text_update 3 777 "482913"]]) in
  eqb (lit "482913 ") code = false /\
  startswith (lit "/") (lit "482913 ") = false /\
  result r = Returned true /\
  List.map lg_seen (log r) = [[2]].
Proof.
  repeat split; vm_compute; reflexivity.
Qed.

(** C10, amended: a message of the bound chat whose stripped text is not
    the issued code (a command or not) is skipped: the body goes on to
    the next update with the cursor past it.  The phase returns [True]
    only from an update whose stripped text equals the code, and [False]
    only from the loop guard, at a reading of the clock for which the
    timeout has elapsed. *)
Theorem C10_wrong_code_never_ends_the_phase :
  forall {W : Type} `{World W} (fuel : nat) (token chat_id : str)
         (rand : nat -> nat) (timeout : Z) (w : W),
    let code := generate_pairing_code rand in
    let r := wait_for_pairing_code fuel token chat_id code timeout w in
    (forall i id s sender o,
        strip s <> code ->
        pairing_update (str_of_chat_id id) code
          (text_message i id s sender) o = (Next, i + 1)) /\
    (result r = Returned true ->
     exists l e u,
       log r = l ++ [e] /\ In u (delivered e) /\ answers chat_id code u) /\
    (result r = Returned false ->
     exists t, expired r = Some t /\ timeout <= t - clock w).
Proof.
  intros W HW fuel token chat_id rand timeout w code r.
  pose proof (generate_pairing_code_nonempty rand) as Hcode.
  split; [|split].
  - intros i id s sender o Hs. rewrite pairing_update_bound.
    apply eqb_neq in Hs. rewrite Hs. reflexivity.
  - intros Hres. apply wait_for_pairing_code_True in Hres; [|assumption].
    destruct Hres as (l & e & u & ? & ? & ? & _). exists l, e, u. auto.
  - intros Hres. apply wait_for_pairing_code_False in Hres; assumption.
Qed.

Lemma C10_witness :
  let code := generate_pairing_code draws_482913 in
  let w := Sim.serving [[Sim.text_update 1 777 "482914"];
                        [Sim.text_update 2 777 "48291"]] in
  let r := wait_for_pairing_code 9 (lit "T1") (lit "777") code 10 w in
  pairing_update (lit "777") code (Sim.text_update 1 777 "482914") 0
  = (Next, 2) /\
  List.length (log r) = 4%nat /\
  exists t, expired r = Some t /\ 10 <= t - clock w.
Proof.
  intros code w r.
  pose proof (C10_wrong_code_never_ends_the_phase
                9 (lit "T1") (lit "777") draws_482913 10 w)
    as (Hstep & _ & Hfalse).
  split; [|split].
  - apply (Hstep 1 (IdInt 777) (lit "482914")
             (FromDict (Some (lit "Alice"))) 0).
    intros E; vm_compute in E; discriminate.
  - vm_compute. reflexivity.
  - apply Hfalse. vm_compute. reflexivity.
Defined.

(** ** The cursor *)

Lemma last_app_nested {A : Type} (l1 l2 : list A) (d : A) :
  last (l1 ++ l2) d = last l2 (last l1 d).
Proof.
  revert d; induction l1 as [|a l1 IH]; intros d; [reflexivity|].
  change ((a :: l1) ++ l2) with (a :: (l1 ++ l2)).
  rewrite !last_cons. apply IH.
Qed.

Lemma last_default_or_In {A : Type} (l : list A) (d : A) :
  last l d = d \/ In (last l d) l.
Proof.
  revert d; induction l as [|a l IH]; intros d; [left; reflexivity|].
  rewrite last_cons. right.
  destruct (IH a) as [-> | Hin]; [left; reflexivity | right; assumption].
Qed.

Lemma sorted_last_maximum (i : Z) (l : list Z) :
  StronglySorted Z.le (i :: l) -> last l i = maximum i l.
Proof.
  revert i; induction l as [|j l IH]; intros i Hs; [reflexivity|].
  rewrite last_cons. unfold maximum; simpl.
  inversion Hs as [|? ? Hs' Hall]; subst.
  inversion Hall as [|? ? Hij _]; subst.
  rewrite Z.max_r by assumption. apply IH; assumption.
Qed.

Lemma cursor_after_app (o : Z) (l1 l2 : list Z) :
  cursor_after o (l1 ++ l2) = cursor_after (cursor_after o l1) l2.
Proof.
  unfold cursor_after. rewrite map_app. apply last_app_nested.
Qed.

Lemma cursor_after_ascending (l1 l2 : list Z) :
  ascending (l1 ++ l2) ->
  cursor_after 0 l1 <= cursor_after (cursor_after 0 l1) l2.
Proof.
  intros [Hs Hp]. unfold cursor_after at 2.
  destruct (last_default_or_In (List.map Z.succ l2) (cursor_after 0 l1))
    as [-> | Hin]; [lia|].
  apply in_map_iff in Hin. destruct Hin as (x & <- & Hx).
  unfold cursor_after.
  destruct (last_default_or_In (List.map Z.succ l1) 0) as [-> | Hin].
  - rewrite Forall_forall in Hp.
    specialize (Hp x (in_or_app _ _ _ (or_intror Hx))). lia.
  - apply in_map_iff in Hin. destruct Hin as (y & <- & Hy).
    enough (y <= x) by lia.
    clear - Hs Hx Hy. induction l1 as [|a l1 IH]; [contradiction|].
    simpl in Hs. inversion Hs as [|? ? Hs' Hall]; subst.
    destruct Hy as [-> | Hy].
    + rewrite Forall_forall in Hall. apply Hall.
      apply in_or_app; right; assumption.
    + apply IH; assumption.
Qed.

(** Along a chained log whose polls follow the ids they saw, the cursor
    is [cursor_after] of everything seen so far. *)
Lemma chained_cursor (l : list poll) (o final : Z) :
  chained o l final ->
  Forall (fun e => lg_after e = cursor_after (lg_offset e) (lg_seen e)) l ->
  final = cursor_after o (observed l).
Proof.
  revert o; induction l as [|e l IH]; intros o Hc Hl.
  - simpl in Hc. subst. reflexivity.
  - destruct Hc as [Ho Hc]. inversion Hl as [|? ? He Hl']; subst.
    unfold observed. simpl. fold (observed l).
    rewrite cursor_after_app, <- He. apply IH; assumption.
Qed.

Lemma chained_monotone (l : list poll) (seen0 : list Z) (final : Z) :
  chained (cursor_after 0 seen0) l final ->
  Forall (fun e => lg_after e = cursor_after (lg_offset e) (lg_seen e)) l ->
  ascending (seen0 ++ observed l) ->
  Forall (fun e => lg_offset e <= lg_after e) l.
Proof.
  revert seen0; induction l as [|e l IH]; intros seen0 Hc Hl Ha;
    [constructor|].
  destruct Hc as [Ho Hc]. inversion Hl as [|? ? He Hl']; subst.
  unfold observed in Ha. simpl in Ha. fold (observed l) in Ha.
  rewrite app_assoc in Ha.
  assert (Hafter : lg_after e = cursor_after 0 (seen0 ++ lg_seen e)).
  { rewrite cursor_after_app, <- Ho. exact He. }
  constructor.
  - rewrite He, Ho. apply cursor_after_ascending.
    destruct Ha as [Hs Hp]. split.
    + clear - Hs. revert Hs. generalize (seen0 ++ lg_seen e).
      intros l1. induction l1 as [|a l1 IH]; simpl; intros Hs;
        [constructor|].
      inversion Hs as [|? ? Hs' Hall]; subst. constructor; [auto|].
      apply Forall_app in Hall. tauto.
    + apply Forall_app in Hp. tauto.
  - apply (IH (seen0 ++ lg_seen e)); try assumption.
    rewrite <- Hafter. assumption.
Qed.

Section CursorFacts.

Context {W : Type} `{World W} {A : Type}.
Variable request : Z -> option Z.
Variable body : update -> Z -> signal A * Z.
Variable on_timeout : A.
Hypothesis body_assigns : assigns body.

Lemma poll_loop_follows (fuel : nat) (token : str)
    (start_time timeout offset : Z) (w : W) :
  let r := poll_loop request body on_timeout fuel token start_time timeout
             offset w in
  Forall (fun e => lg_after e = cursor_after (lg_offset e) (lg_seen e))
    (log r).
Proof.
  intros r.
  pose proof (poll_loop_entries request body on_timeout fuel token
                start_time timeout offset w) as He.
  fold r in He. eapply Forall_impl; [|exact He].
  intros e (_ & _ & Hr).
  pose proof (round_offset body body_assigns (lg_response e) (lg_offset e))
    as Ho.
  rewrite Hr in Ho. exact Ho.
Qed.

Lemma poll_loop_cursor (fuel : nat) (token : str)
    (start_time timeout : Z) (w : W) :
  let r := poll_loop request body on_timeout fuel token start_time timeout
             0 w in
  follows_last_id (offset_end r) (log r) /\
  (ascending (observed (log r)) ->
   is_maximum_and_monotone (offset_end r) (log r)).
Proof.
  intros r.
  pose proof (poll_loop_chained request body on_timeout fuel token
                start_time timeout 0 w) as Hc.
  pose proof (poll_loop_follows fuel token start_time timeout 0 w) as Hf.
  fold r in Hc, Hf. simpl in Hc.
  pose proof (chained_cursor _ _ _ Hc Hf) as Hend.
  split; [split; assumption|].
  intros Ha. split.
  - rewrite Hend. destruct Ha as [Hs _].
    destruct (observed (log r)) as [|i rest]; [reflexivity|].
    unfold cursor_after. simpl List.map. rewrite last_cons.
    rewrite <- (sorted_last_maximum i rest Hs).
    clear. revert i. induction rest as [|j rest IH]; intros i.
    + change (Z.succ i = 1 + i). lia.
    + simpl List.map. rewrite !last_cons. apply IH.
  - apply (chained_monotone (log r) [] (offset_end r)); assumption.
Qed.

End CursorFacts.

(** ** C5: the value of the cursor *)

(** C5, as stated, fails: on a batch whose ids are 5 then 3 the cursor
    ends at 4, not at 1 + max = 6, and it was 6 after the first of the
    two updates: it went down. *)
Lemma C5_cursor_is_not_the_maximum :
  let batch := [Sim.other_update 5; Sim.other_update 3] in
  let r := wait_for_start_command 5 (lit "T1") 2 (Sim.serving [batch]) in
  result r = Returned None /\
  observed (log r) = [5; 3] /\
  offset_end r = 4 /\
  1 + maximum 5 [3] = 6 /\
  snd (fst (for_updates start_update [Sim.other_update 5] 0)) = 6.
Proof.
  repeat split; vm_compute; reflexivity.
Qed.

(** C5, amended: in either phase the cursor starts at 0, is handed from
    each poll to the next, and is always 1 + the id of the update seen
    last (0 when none was seen).  When the ids are seen in ascending
    order, from 0 up, as the service numbers them, this is 1 + the
    maximum of the ids seen so far and no poll leaves the cursor lower
    than it found it.  An update without a ['message'] key makes neither
    loop return and moves the cursor past its id. *)
Theorem C5_cursor_follows_the_last_id :
  forall {W : Type} `{World W} (fuel : nat) (token chat_id code : str)
         (timeout : Z) (w : W),
    let h := wait_for_start_command fuel token timeout w in
    let c := wait_for_pairing_code fuel token chat_id code timeout w in
    follows_last_id (offset_end h) (log h) /\
    follows_last_id (offset_end c) (log c) /\
    (ascending (observed (log h)) ->
     is_maximum_and_monotone (offset_end h) (log h)) /\
    (ascending (observed (log c)) ->
     is_maximum_and_monotone (offset_end c) (log c)) /\
    (forall i o,
        start_update {| update_id := Some i; msg := None |} o
        = (Next, i + 1) /\
        pairing_update chat_id code {| update_id := Some i; msg := None |} o
        = (Next, i + 1)).
Proof.
  intros W HW fuel token chat_id code timeout w h c. subst h c.
  rewrite wait_for_start_command_eq, wait_for_pairing_code_eq.
  pose proof (poll_loop_cursor start_request start_update None
                start_update_assigns fuel token (clock w) timeout
                (snd (time_time w))) as [Hh1 Hh2].
  pose proof (poll_loop_cursor pairing_request
                (pairing_update chat_id code) false
                (pairing_update_assigns chat_id code) fuel token (clock w)
                timeout (snd (time_time w))) as [Hc1 Hc2].
  split; [exact Hh1|]. split; [exact Hc1|].
  split; [exact Hh2|]. split; [exact Hc2|].
  intros i o. split; reflexivity.
Qed.

Lemma C5_witness :
  let w := Sim.serving [[Sim.text_update 1 888 "hi"; Sim.other_update 2];
                        [Sim.other_update 5]] in
  let h := wait_for_start_command 5 (lit "T1") 6 w in
  let c := wait_for_pairing_code 5 (lit "T1") (lit "777") (lit "482913") 6 w in
  (offset_end h = 6 /\ is_maximum_and_monotone (offset_end h) (log h)) /\
  is_maximum_and_monotone (offset_end c) (log c).
Proof.
  intros w h c.
  pose proof (C5_cursor_follows_the_last_id
                5 (lit "T1") (lit "777") (lit "482913") 6 w)
    as (_ & _ & Hh & Hc & _).
  assert (Eh : observed (log h) = [1; 2; 5]) by (vm_compute; reflexivity).
  assert (Ec : observed (log c) = [1; 2; 5]) by (vm_compute; reflexivity).
  assert (Ha : ascending [1; 2; 5]).
  { split; repeat constructor; lia. }
  split; [split|].
  - vm_compute. reflexivity.
  - apply Hh. fold h. rewrite Eh. exact Ha.
  - apply Hc. fold c. rewrite Ec. exact Ha.
Defined.

(** ** C4: the cursor across the two phases *)

(** C4, as stated, fails: after the handshake consumed the update 1
    ([/start] from chat 777) and left its cursor at 2, the challenge
    builds its first request with [offset=0] and the service, which was
    never told that update 1 was consumed, delivers it again. *)
Lemma C4_challenge_refetches_the_start_update :
  let w := Sim.serving [[Sim.text_update 1 777 "/start"]] in
  let a := pairing_attempt 9 draws_482913 (lit "T1") w in
  result (handshake a) = Returned (Some (lit "777")) /\
  observed (log (handshake a)) = [1] /\
  offset_end (handshake a) = 2 /\
  option_map (fun c => List.map (fun e => (lg_request e, lg_seen e))
                         (firstn 1 (log c))) (challenge a)
  = Some [(Some 0, [1])].
Proof.
  repeat split; vm_compute; reflexivity.
Qed.

(** C4, amended: within a phase the cursor is never reset, each poll
    starts from the value the previous one left; but each phase has a
    cursor of its own that starts at 0, so the first request of the
    challenge asks for [offset=0] whatever the handshake consumed, and
    every request of the challenge carries the cursor of the challenge. *)
Theorem C4_each_phase_has_its_own_cursor :
  forall {W : Type} `{World W} (fuel : nat) (rand : nat -> nat)
         (token : str) (w : W),
    let a := pairing_attempt fuel rand token w in
    chained 0 (log (handshake a)) (offset_end (handshake a)) /\
    match challenge a with
    | None => True
    | Some c =>
        chained 0 (log c) (offset_end c) /\
        Forall (fun e => lg_request e = Some (lg_offset e)) (log c) /\
        match log c with
        | [] => True
        | e :: _ => lg_request e = Some 0
        end
    end.
Proof.
  intros W HW fuel rand token w a.
  assert (Hh : forall t, chained 0
                 (log (wait_for_start_command fuel token t w))
                 (offset_end (wait_for_start_command fuel token t w))).
  { intros t. rewrite wait_for_start_command_eq. apply poll_loop_chained. }
  assert (Hc : forall chat_id code t w1,
    let c := wait_for_pairing_code fuel token chat_id code t w1 in
    chained 0 (log c) (offset_end c) /\
    Forall (fun e => lg_request e = Some (lg_offset e)) (log c) /\
    match log c with [] => True | e :: _ => lg_request e = Some 0 end).
  { intros chat_id code t w1 c. subst c.
    rewrite wait_for_pairing_code_eq.
    pose proof (poll_loop_chained pairing_request
                  (pairing_update chat_id code) false fuel token (clock w1)
                  t 0 (snd (time_time w1))) as Hch.
    pose proof (poll_loop_entries pairing_request
                  (pairing_update chat_id code) false fuel token (clock w1)
                  t 0 (snd (time_time w1))) as Hen.
    simpl in Hch. split; [exact Hch|]. split.
    - eapply Forall_impl; [|exact Hen]. intros e (_ & Hr & _). exact Hr.
    - destruct (log _) as [|e l]; [exact I|].
      inversion Hen as [|? ? (_ & Hr & _) _]; subst.
      destruct Hch as [Ho _]. rewrite Hr, Ho. reflexivity. }
  subst a. unfold pairing_attempt.
  destruct (result (wait_for_start_command fuel token 300 w))
    as [[[|ch chat_id]|]|]; simpl; try (split; [apply Hh | exact I]).
  destruct (send_telegram_message _ _ _ _) as [sent w1]. simpl.
  split; [apply Hh | apply Hc].
Qed.

(** ** C8: failed requests *)





(** ** C9: the deadline *)

Lemma starts_startsb (u : update) (c : str) : starts u c -> startsb u = true.
Proof.
  intros (m & id & s & Em & Ec & _ & Et & Es).
  unfold startsb. rewrite Em, Ec, Et. apply eqb_eq. assumption.
Qed.

Lemma answers_answersb (chat_id code : str) (u : update) :
  answers chat_id code u -> answersb chat_id code u = true.
Proof.
  intros (m & id & s & Em & Ec & Eid & Et & Es).
  unfold answersb. rewrite Em, Ec, Et.
  apply andb_true_iff. split; apply eqb_eq; assumption.
Qed.

Lemma none_delivered_check (p : update -> bool) (l : list poll) :
  forallb (fun e => forallb (fun u => negb (p u)) (delivered e)) l = true ->
  none_delivered p l.
Proof.
  intros Hall e u He Hu.
  rewrite forallb_forall in Hall. specialize (Hall e He).
  rewrite forallb_forall in Hall. specialize (Hall u Hu).
  destruct (p u); [discriminate | reflexivity].
Qed.

(** C9: with a clock that moves forward and fuel for the timeout, both
    phases return; every poll they made was begun at a reading of the
    clock before the deadline; and when no update that qualifies (a
    [/start] for the handshake, the code from the bound chat for the
    challenge) was delivered, the value is the timeout one ([None],
    [False]), returned by the guard at a reading for which the timeout
    has elapsed, with no poll after it. *)
Theorem C9_deadline_ends_each_phase :
  forall {W : Type} `{World W} (Hclock : ticking) (fuel : nat)
         (token chat_id : str) (rand : nat -> nat) (timeout : Z) (w : W),
    (Z.to_nat timeout < fuel)%nat ->
    let code := generate_pairing_code rand in
    let h := wait_for_start_command fuel token timeout w in
    let c := wait_for_pairing_code fuel token chat_id code timeout w in
    (exists v, result h = Returned v) /\
    (exists v, result c = Returned v) /\
    Forall (fun e => lg_clock e - clock w < timeout) (log h ++ log c) /\
    (none_delivered startsb (log h) ->
     result h = Returned None /\
     exists t, expired h = Some t /\ timeout <= t - clock w) /\
    (none_delivered (answersb chat_id code) (log c) ->
     result c = Returned false /\
     exists t, expired c = Some t /\ timeout <= t - clock w).
Proof.
  intros W HW Hclock fuel token chat_id rand timeout w Hfuel code h c.
  assert (Hmeasure :
    (Z.to_nat (timeout - (clock (snd (time_time w)) - clock w)) < fuel)%nat).
  { pose proof (time_time_steady Hclock w). lia. }
  assert (Hh : exists v, result h = Returned v).
  { subst h. rewrite wait_for_start_command_eq.
    apply poll_loop_returns; assumption. }
  assert (Hc : exists v, result c = Returned v).
  { subst c. rewrite wait_for_pairing_code_eq.
    apply poll_loop_returns; assumption. }
  split; [exact Hh|]. split; [exact Hc|]. split; [|split].
  - apply Forall_app. split.
    + subst h. rewrite wait_for_start_command_eq.
      eapply Forall_impl; [|apply poll_loop_entries].
      intros e (Hg & _). exact Hg.
    + subst c. rewrite wait_for_pairing_code_eq.
      eapply Forall_impl; [|apply poll_loop_entries].
      intros e (Hg & _). exact Hg.
  - intros Hnone. destruct Hh as [[cid|] Hv].
    + exfalso. pose proof Hv as Hv'.
      apply wait_for_start_command_Some in Hv'.
      destruct Hv' as (l & e & u & El & Hin & Hs & _).
      apply starts_startsb in Hs.
      rewrite (Hnone e u) in Hs; [discriminate| |assumption].
      unfold h. rewrite El. apply in_or_app. right. left. reflexivity.
    + split; [assumption|].
      apply wait_for_start_command_None. assumption.
  - intros Hnone.
    pose proof (generate_pairing_code_nonempty rand) as Hcode.
    destruct Hc as [[|] Hv].
    + exfalso. pose proof Hv as Hv'.
      apply wait_for_pairing_code_True in Hv'; [|assumption].
      destruct Hv' as (l & e & u & El & Hin & Hs & _).
      apply answers_answersb in Hs.
      rewrite (Hnone e u) in Hs; [discriminate| |assumption].
      unfold c. rewrite El. apply in_or_app. right. left. reflexivity.
    + split; [assumption|].
      apply wait_for_pairing_code_False; assumption.
Qed.

Lemma sim_ticking : @ticking Sim.sim Sim.sim_world.
Proof.
  split.
  - intros s. unfold clock; simpl. lia.
  - intros token req s. unfold clock; simpl. unfold Sim.sim_getUpdates.
    destruct (Sim.faults s) as [|[f|] later]; simpl; lia.
  - intros d s. unfold clock; simpl. lia.
Qed.

Lemma C9_witness :
  let w := Sim.failing [None; Some IOFailure]
             [[Sim.text_update 1 888 "hello"; Sim.text_update 2 777 "/help"];
              [Sim.text_update 3 777 "48291"]] in
  let code := generate_pairing_code draws_482913 in
  let h := wait_for_start_command 11 (lit "T1") 10 w in
  let c := wait_for_pairing_code 11 (lit "T1") (lit "777") code 10 w in
  (result h = Returned None /\
   exists t, expired h = Some t /\ 10 <= t - clock w) /\
  (result c = Returned false /\
   exists t, expired c = Some t /\ 10 <= t - clock w) /\
  Forall (fun e => lg_clock e - clock w < 10) (log h ++ log c).
Proof.
  intros w code h c.
  assert (Hfuel : (Z.to_nat 10 < 11)%nat) by (vm_compute; lia).
  pose proof (C9_deadline_ends_each_phase sim_ticking 11 (lit "T1")
                (lit "777") draws_482913 10 w Hfuel)
    as (_ & _ & Hpolls & Hh & Hc).
  split; [|split].
  - apply Hh. apply none_delivered_check. vm_compute. reflexivity.
  - apply Hc. apply none_delivered_check. vm_compute. reflexivity.
  - exact Hpolls.
Defined.

(** ** C6, C7: the credential store *)

Module EnvFacts.

Import Env.

Lemma startswith_app (p s : str) :
  startswith p s = true -> exists rest, s = p ++ rest.
Proof.
  revert s; induction p as [|x p IH]; intros s Hs.
  - exists s; reflexivity.
  - destruct s as [|y s]; [discriminate|].
    simpl in Hs. apply andb_true_iff in Hs. destruct Hs as [Hxy Hs].
    apply N.eqb_eq in Hxy. subst y.
    destruct (IH s Hs) as [rest ->]. exists rest; reflexivity.
Qed.

(** A line cannot begin with both keys. *)
Lemma keys_differ (line : str) :
  startswith token_key line = true -> startswith chat_id_key line = false.
Proof.
  intros Hs. apply startswith_app in Hs. destruct Hs as [rest ->].
  reflexivity.
Qed.

Lemma merge_step_eq (token chat_id line : str) (new_lines : list str)
    (token_found chat_id_found : bool) :
  merge_step token chat_id (new_lines, token_found, chat_id_found) line
  = (new_lines ++ [replaced token chat_id line],
     token_found || startswith token_key line,
     chat_id_found || startswith chat_id_key line).
Proof.
  unfold merge_step, replaced.
  destruct (startswith token_key line) eqn:Et.
  - rewrite (keys_differ line Et), orb_true_r, orb_false_r. reflexivity.
  - destruct (startswith chat_id_key line);
      rewrite ?orb_true_r, ?orb_false_r; reflexivity.
Qed.

Lemma merge_loop (token chat_id : str) (env_lines new_lines : list str)
    (token_found chat_id_found : bool) :
  fold_left (merge_step token chat_id) env_lines
    (new_lines, token_found, chat_id_found)
  = (new_lines ++ List.map (replaced token chat_id) env_lines,
     token_found || existsb (startswith token_key) env_lines,
     chat_id_found || existsb (startswith chat_id_key) env_lines).
Proof.
  revert new_lines token_found chat_id_found.
  induction env_lines as [|line rest IH];
    intros new_lines token_found chat_id_found; cbn [fold_left].
  - cbn [List.map existsb]. rewrite app_nil_r, !orb_false_r. reflexivity.
  - rewrite merge_step_eq, IH. cbn [List.map existsb].
    rewrite <- app_assoc, !orb_assoc. reflexivity.
Qed.

Lemma merge_lines_eq (token chat_id : str) (env_lines : list str) :
  merge_lines token chat_id env_lines
  = List.map (replaced token chat_id) env_lines
    ++ (if existsb (startswith token_key) env_lines then []
        else [newline :: token_line token])
    ++ (if existsb (startswith chat_id_key) env_lines then []
        else [chat_id_line chat_id]).
Proof.
  unfold merge_lines. rewrite merge_loop. cbv beta iota. cbn [orb app].
  destruct (existsb (startswith token_key) env_lines);
    destruct (existsb (startswith chat_id_key) env_lines);
    rewrite ?app_nil_r, <- ?app_assoc; reflexivity.
Qed.

(** *** Where a second merge changes nothing

    For a file that is empty or ends with a newline, and a token and a
    chat id without newlines, the second merge reads back the lines the
    first one wrote and replaces each of them by itself. *)

Lemma readlines_terminated (l c : str) :
  terminated l -> readlines (l ++ c) = l :: readlines c.
Proof.
  intros (body & -> & Hb). induction body as [|x body IH].
  - reflexivity.
  - simpl. destruct (N.eqb_spec x newline) as [->|Hx].
    + exfalso. apply Hb. left; reflexivity.
    + simpl in IH. rewrite IH; [reflexivity|].
      intros Hin. apply Hb. right; assumption.
Qed.

Lemma readlines_concat (L : list str) :
  Forall terminated L -> readlines (List.concat L) = L.
Proof.
  induction 1 as [|l L Hl _ IH]; [reflexivity|].
  simpl. rewrite readlines_terminated by assumption. rewrite IH. reflexivity.
Qed.

Lemma readlines_nil (c : str) : readlines c = [] -> c = [].
Proof.
  destruct c as [|x c]; [reflexivity|]. simpl.
  destruct (N.eqb x newline); [discriminate|].
  destruct (readlines c); discriminate.
Qed.

Lemma terminated_cons (x : char) (l : str) :
  x <> newline -> terminated l -> terminated (x :: l).
Proof.
  intros Hx (body & -> & Hb). exists (x :: body). split; [reflexivity|].
  intros [E | Hin]; [apply Hx; assumption | apply Hb; assumption].
Qed.

Lemma readlines_of_terminated_file (c : str) :
  last c newline = newline -> Forall terminated (readlines c).
Proof.
  induction c as [|x c IH]; intros Hlast; [constructor|].
  rewrite last_cons in Hlast. simpl.
  destruct (N.eqb_spec x newline) as [->|Hx].
  - constructor; [exists []; split; [reflexivity | intros []] | auto].
  - assert (Hc : c <> []).
    { intros ->. simpl in Hlast. contradiction. }
    assert (Hlast' : last c newline = newline).
    { destruct c as [|y c]; [contradiction|].
      rewrite last_cons in *. assumption. }
    specialize (IH Hlast').
    destruct (readlines c) as [|l ls] eqn:E.
    + apply readlines_nil in E. contradiction.
    + inversion IH; subst. constructor; [|assumption].
      apply terminated_cons; assumption.
Qed.

Lemma startswith_self_app (p rest : str) : startswith p (p ++ rest) = true.
Proof.
  induction p as [|x p IH]; [reflexivity|].
  simpl. rewrite N.eqb_refl. exact IH.
Qed.

Lemma replaced_token_line (token chat_id : str) :
  replaced token chat_id (token_line token) = token_line token.
Proof.
  unfold replaced, token_line. rewrite startswith_self_app. reflexivity.
Qed.

Lemma replaced_chat_id_line (token chat_id : str) :
  replaced token chat_id (chat_id_line chat_id) = chat_id_line chat_id.
Proof.
  unfold replaced, chat_id_line.
  replace (startswith token_key (chat_id_key ++ chat_id ++ [newline]))
    with false by reflexivity.
  rewrite startswith_self_app. reflexivity.
Qed.

Lemma replaced_cases (token chat_id line : str) :
  replaced token chat_id line = token_line token \/
  replaced token chat_id line = chat_id_line chat_id \/
  replaced token chat_id line = line.
Proof.
  unfold replaced.
  destruct (startswith token_key line); [tauto|].
  destruct (startswith chat_id_key line); tauto.
Qed.

Lemma replaced_replaced (token chat_id line : str) :
  replaced token chat_id (replaced token chat_id line)
  = replaced token chat_id line.
Proof.
  destruct (replaced_cases token chat_id line) as [E | [E | E]]; rewrite E.
  - apply replaced_token_line.
  - apply replaced_chat_id_line.
  - exact E.
Qed.

Lemma terminated_entry (key value : str) :
  ~ In newline key -> ~ In newline value ->
  terminated (key ++ value ++ [newline]).
Proof.
  intros Hk Hv. exists (key ++ value). split.
  - rewrite app_assoc. reflexivity.
  - intros Hin. apply in_app_or in Hin. tauto.
Qed.

Lemma key_no_newline :
  ~ In newline token_key /\ ~ In newline chat_id_key.
Proof.
  split; intros Hin; vm_compute in Hin;
    repeat (destruct Hin as [Hin | Hin]; [discriminate|]); exact Hin.
Qed.

Lemma terminated_replaced (token chat_id line : str) :
  ~ In newline token -> ~ In newline chat_id ->
  terminated line -> terminated (replaced token chat_id line).
Proof.
  intros Ht Hc Hl. unfold replaced.
  destruct (startswith token_key line);
    [apply terminated_entry; [apply key_no_newline | assumption]|].
  destruct (startswith chat_id_key line);
    [apply terminated_entry; [apply key_no_newline | assumption]|].
  assumption.
Qed.

Lemma replaced_key_found (token chat_id : str) (L : list str) :
  (existsb (startswith token_key) L = true ->
   existsb (startswith token_key) (List.map (replaced token chat_id) L)
   = true) /\
  (existsb (startswith chat_id_key) L = true ->
   existsb (startswith chat_id_key) (List.map (replaced token chat_id) L)
   = true).
Proof.
  split; intros Hex; apply existsb_exists in Hex;
    destruct Hex as (l & Hin & Hl); apply existsb_exists;
    exists (replaced token chat_id l);
    (split; [apply in_map; assumption|]); unfold replaced.
  - rewrite Hl. apply startswith_self_app.
  - destruct (startswith token_key l) eqn:Et.
    + apply keys_differ in Et. congruence.
    + rewrite Hl. apply startswith_self_app.
Qed.

Lemma concat_written (token chat_id : str) (L : list str) :
  List.concat (written token chat_id L)
  = List.concat (merge_lines token chat_id L).
Proof.
  rewrite merge_lines_eq. unfold written.
  rewrite !concat_app.
  destruct (existsb (startswith token_key) L); reflexivity.
Qed.

Lemma written_terminated (token chat_id : str) (L : list str) :
  ~ In newline token -> ~ In newline chat_id ->
  Forall terminated L -> Forall terminated (written token chat_id L).
Proof.
  intros Ht Hc HL. unfold written.
  apply Forall_app. split; [|apply Forall_app; split].
  - apply Forall_map. eapply Forall_impl; [|exact HL].
    intros l. apply terminated_replaced; assumption.
  - destruct (existsb (startswith token_key) L); [constructor|].
    constructor; [exists []; split; [reflexivity | intros []]|].
    constructor; [|constructor].
    apply terminated_entry; [apply key_no_newline | assumption].
  - destruct (existsb (startswith chat_id_key) L); constructor;
      [|constructor].
    apply terminated_entry; [apply key_no_newline | assumption].
Qed.

Lemma merge_lines_written (token chat_id : str) (L : list str) :
  merge_lines token chat_id (written token chat_id L)
  = written token chat_id L.
Proof.
  rewrite merge_lines_eq.
  assert (Hmap : List.map (replaced token chat_id) (written token chat_id L)
                 = written token chat_id L).
  { unfold written. rewrite !map_app, map_map.
    f_equal; [|f_equal].
    - apply map_ext. intros l. apply replaced_replaced.
    - destruct (existsb (startswith token_key) L); [reflexivity|].
      simpl List.map. rewrite replaced_token_line. reflexivity.
    - destruct (existsb (startswith chat_id_key) L); [reflexivity|].
      simpl List.map. rewrite replaced_chat_id_line. reflexivity. }
  rewrite Hmap.
  assert (Ht : existsb (startswith token_key) (written token chat_id L)
               = true).
  { unfold written. rewrite existsb_app.
    destruct (existsb (startswith token_key) L) eqn:E.
    - rewrite (proj1 (replaced_key_found token chat_id L) E). reflexivity.
    - apply orb_true_iff. right. apply existsb_exists.
      exists (token_line token). split.
      + apply in_or_app. left. right. left. reflexivity.
      + apply startswith_self_app. }
  assert (Hc : existsb (startswith chat_id_key) (written token chat_id L)
               = true).
  { unfold written. rewrite !existsb_app.
    destruct (existsb (startswith chat_id_key) L) eqn:E.
    - rewrite (proj2 (replaced_key_found token chat_id L) E). reflexivity.
    - apply orb_true_iff. right. apply orb_true_iff. right.
      apply existsb_exists. exists (chat_id_line chat_id). split.
      + left. reflexivity.
      + apply startswith_self_app. }
  rewrite Ht, Hc, !app_nil_r. reflexivity.
Qed.

Lemma save_credentials_twice (token chat_id : str) (env_file : option str) :
  ~ In newline token -> ~ In newline chat_id -> well_ended env_file ->
  save_credentials token chat_id
    (Some (save_credentials token chat_id env_file))
  = save_credentials token chat_id env_file.
Proof.
  intros Ht Hc Hfile.
  set (L := match env_file with
            | Some content => readlines content
            | None => []
            end).
  assert (HL : Forall terminated L).
  { subst L. destruct env_file as [content|]; [|constructor].
    apply readlines_of_terminated_file. exact Hfile. }
  assert (E : save_credentials token chat_id env_file
              = List.concat (written token chat_id L)).
  { rewrite concat_written. reflexivity. }
  rewrite E. unfold save_credentials at 1, writelines.
  rewrite readlines_concat by (apply written_terminated; assumption).
  rewrite merge_lines_written. reflexivity.
Qed.

(** The lines of the file the merge writes, for a file that ends well. *)
Lemma readlines_save_credentials (token chat_id content : str) :
  ~ In newline token -> ~ In newline chat_id ->
  last content newline = newline ->
  readlines (save_credentials token chat_id (Some content))
  = written token chat_id (readlines content).
Proof.
  intros Ht Hc Hfile. unfold save_credentials, writelines.
  rewrite <- concat_written. apply readlines_concat.
  apply written_terminated; try assumption.
  apply readlines_of_terminated_file. assumption.
Qed.

(** *** The text-mode read *)

Lemma translate_cr (b : bool) (rest : str) :
  translate b (cr :: rest) = newline :: translate true rest.
Proof. reflexivity. Qed.

Lemma translate_newline (b : bool) (rest : str) :
  translate b (newline :: rest)
  = if b then translate false rest else newline :: translate false rest.
Proof. reflexivity. Qed.

Lemma translate_other (b : bool) (c : char) (rest : str) :
  c <> cr -> c <> newline ->
  translate b (c :: rest) = c :: translate false rest.
Proof.
  intros Hcr Hnl. cbn [translate].
  destruct (N.eqb_spec c cr) as [E|_]; [destruct (Hcr E)|].
  destruct (N.eqb_spec c newline) as [E|_]; [destruct (Hnl E)|].
  reflexivity.
Qed.

Lemma char_cases (c : char) :
  c = cr \/ c = newline \/ (c <> cr /\ c <> newline).
Proof.
  destruct (N.eqb_spec c cr); [left; assumption|].
  destruct (N.eqb_spec c newline); [right; left; assumption|].
  right; right; split; assumption.
Qed.

(** A file without carriage returns is read as it is. *)
Lemma universal_newlines_without_cr (raw : str) :
  ~ In cr raw -> universal_newlines raw = raw.
Proof.
  unfold universal_newlines.
  induction raw as [|c rest IH]; [reflexivity|]. intros Hno.
  assert (Hrest : ~ In cr rest) by (intros Hin; apply Hno; right; exact Hin).
  destruct (char_cases c) as [-> | [-> | [Hcr Hnl]]].
  - destruct Hno. left. reflexivity.
  - rewrite translate_newline, IH by assumption. reflexivity.
  - rewrite translate_other, IH by assumption. reflexivity.
Qed.

(** The text read has no carriage return. *)
Lemma translate_has_no_cr (b : bool) (raw : str) : ~ In cr (translate b raw).
Proof.
  revert b; induction raw as [|c rest IH]; intros b; [intros []|].
  destruct (char_cases c) as [-> | [-> | [Hcr Hnl]]].
  - rewrite translate_cr. intros [E | Hin]; [discriminate | exact (IH _ Hin)].
  - rewrite translate_newline. destruct b; [apply IH|].
    intros [E | Hin]; [discriminate | exact (IH _ Hin)].
  - rewrite translate_other by assumption.
    intros [E | Hin]; [destruct (Hcr E) | exact (IH _ Hin)].
Qed.

Lemma translate_false_cons (c : char) (rest : str) :
  translate false (c :: rest) <> [].
Proof.
  destruct (char_cases c) as [-> | [-> | [Hcr Hnl]]].
  - rewrite translate_cr. discriminate.
  - rewrite translate_newline. discriminate.
  - rewrite translate_other by assumption. discriminate.
Qed.

Lemma last_default {A : Type} (l : list A) (d d' : A) :
  l <> [] -> last l d = last l d'.
Proof.
  destruct l as [|x l]; [intros Hn; destruct (Hn eq_refl)|]. intros _.
  rewrite !last_cons. reflexivity.
Qed.

(** A file that ends with a line break is read as a text that ends with
    a newline. *)
Lemma translate_ends (b : bool) (raw : str) :
  ends_with_line_break raw -> last (translate b raw) newline = newline.
Proof.
  unfold ends_with_line_break.
  revert b; induction raw as [|c rest IH]; intros b Hend; [reflexivity|].
  destruct rest as [|d rest'].
  - cbn [last] in Hend. destruct Hend as [-> | ->].
    + rewrite translate_newline. destruct b; reflexivity.
    + reflexivity.
  - change (last (c :: d :: rest') newline)
      with (last (d :: rest') newline) in Hend.
    destruct (char_cases c) as [-> | [-> | [Hcr Hnl]]].
    + rewrite translate_cr, last_cons. apply IH. exact Hend.
    + rewrite translate_newline. destruct b; [apply IH; exact Hend|].
      rewrite last_cons. apply IH. exact Hend.
    + rewrite translate_other, last_cons by assumption.
      rewrite (last_default _ c newline) by apply translate_false_cons.
      apply IH. exact Hend.
Qed.

Lemma save_env_file_eq (token chat_id : str) (env_file : option str) :
  save_env_file token chat_id env_file
  = save_credentials token chat_id (option_map universal_newlines env_file).
Proof. destruct env_file; reflexivity. Qed.

(** On a file without carriage returns the save is the merge of the
    text of the file. *)
Lemma save_env_file_without_cr (token chat_id raw : str) :
  ~ In cr raw ->
  save_env_file token chat_id (Some raw)
  = save_credentials token chat_id (Some raw).
Proof.
  intros Hno. rewrite save_env_file_eq. cbn [option_map].
  rewrite universal_newlines_without_cr by assumption. reflexivity.
Qed.

Lemma readlines_save_env_file (token chat_id raw : str) :
  ~ In newline token -> ~ In newline chat_id ->
  ends_with_line_break raw ->
  readlines (save_env_file token chat_id (Some raw))
  = written token chat_id (readlines (universal_newlines raw)).
Proof.
  intros Ht Hc Hend. rewrite save_env_file_eq. cbn [option_map].
  apply readlines_save_credentials; [assumption | assumption|].
  apply translate_ends. exact Hend.
Qed.

(** *** Saving twice, on the content of the file *)

(** A character of a line read is a character of the text. *)
Lemma readlines_In (content : str) (l : str) (x : char) :
  In l (readlines content) -> In x l -> In x content.
Proof.
  revert l x; induction content as [|c rest IH]; intros l x;
    [intros []|].
  cbn [readlines]. destruct (N.eqb c newline).
  - intros [<- | Hl] Hx.
    + destruct Hx as [<- | []]. left. reflexivity.
    + right. exact (IH l x Hl Hx).
  - destruct (readlines rest) as [|l0 ls] eqn:E.
    + intros [<- | []] Hx. destruct Hx as [<- | []]. left. reflexivity.
    + intros [<- | Hl] Hx.
      * destruct Hx as [<- | Hx]; [left; reflexivity|].
        right. apply (IH l0 x); [left; reflexivity | exact Hx].
      * right. apply (IH l x); [right; exact Hl | exact Hx].
Qed.

Lemma not_in_check (c : char) (s : str) :
  existsb (N.eqb c) s = false -> ~ In c s.
Proof.
  intros E Hin.
  assert (T : existsb (N.eqb c) s = true).
  { apply existsb_exists. exists c. split; [assumption|].
    apply N.eqb_refl. }
  congruence.
Qed.

Lemma token_line_without_cr (token : str) :
  ~ In cr token -> ~ In cr (token_line token).
Proof.
  intros Hno Hin. unfold token_line in Hin.
  apply in_app_or in Hin. destruct Hin as [Hin | Hin].
  - revert Hin. apply not_in_check. vm_compute. reflexivity.
  - apply in_app_or in Hin. destruct Hin as [Hin | [E | []]];
      [exact (Hno Hin) | discriminate].
Qed.

Lemma chat_id_line_without_cr (chat_id : str) :
  ~ In cr chat_id -> ~ In cr (chat_id_line chat_id).
Proof.
  intros Hno Hin. unfold chat_id_line in Hin.
  apply in_app_or in Hin. destruct Hin as [Hin | Hin].
  - revert Hin. apply not_in_check. vm_compute. reflexivity.
  - apply in_app_or in Hin. destruct Hin as [Hin | [E | []]];
      [exact (Hno Hin) | discriminate].
Qed.

(** What is written has no carriage return when the text read, the
    token and the chat id have none. *)
Lemma save_credentials_without_cr (token chat_id content : str) :
  ~ In cr token -> ~ In cr chat_id -> ~ In cr content ->
  ~ In cr (save_credentials token chat_id (Some content)).
Proof.
  intros Ht Hc Hcontent Hin.
  unfold save_credentials, writelines in Hin.
  rewrite merge_lines_eq in Hin.
  apply in_concat in Hin. destruct Hin as (l & Hl & Hin).
  assert (Htl := token_line_without_cr token Ht).
  assert (Hcl := chat_id_line_without_cr chat_id Hc).
  apply in_app_or in Hl. destruct Hl as [Hl | Hl].
  - apply in_map_iff in Hl. destruct Hl as (l0 & <- & Hl0).
    unfold replaced in Hin.
    destruct (startswith token_key l0); [exact (Htl Hin)|].
    destruct (startswith chat_id_key l0); [exact (Hcl Hin)|].
    apply Hcontent. apply (readlines_In content l0); assumption.
  - apply in_app_or in Hl. destruct Hl as [Hl | Hl].
    + destruct (existsb (startswith token_key) (readlines content));
        [destruct Hl|].
      destruct Hl as [<- | []].
      destruct Hin as [E | Hin]; [discriminate | exact (Htl Hin)].
    + destruct (existsb (startswith chat_id_key) (readlines content));
        [destruct Hl|].
      destruct Hl as [<- | []]. exact (Hcl Hin).
Qed.

(** What is written has no carriage return when the token and the
    chat id have none: none comes from the file. *)
Lemma save_env_file_has_no_cr (token chat_id : str) (env_file : option str) :
  ~ In cr token -> ~ In cr chat_id ->
  ~ In cr (save_env_file token chat_id env_file).
Proof.
  intros Ht Hc. rewrite save_env_file_eq.
  destruct env_file as [raw|]; cbn [option_map].
  - apply save_credentials_without_cr; [assumption | assumption|].
    apply translate_has_no_cr.
  - change (save_credentials token chat_id None)
      with (save_credentials token chat_id (Some [])).
    apply save_credentials_without_cr; [assumption | assumption|].
    intros [].
Qed.

(** Saving a second time into the file that the first save wrote changes
    nothing, when the file ended with a line break and the values have
    neither a newline nor a carriage return. *)
Lemma save_env_file_twice (token chat_id raw : str) :
  ~ In newline token -> ~ In newline chat_id ->
  ~ In cr token -> ~ In cr chat_id ->
  ends_with_line_break raw ->
  save_env_file token chat_id
    (Some (save_env_file token chat_id (Some raw)))
  = save_env_file token chat_id (Some raw).
Proof.
  intros Ht Hc Htcr Hccr Hend.
  rewrite (save_env_file_eq token chat_id (Some raw)). cbn [option_map].
  rewrite save_env_file_without_cr.
  - apply save_credentials_twice; [assumption | assumption|].
    apply translate_ends. exact Hend.
  - apply save_credentials_without_cr; [assumption | assumption|].
    apply translate_has_no_cr.
Qed.

End EnvFacts.

(** C6, as stated, fails: when the token key is absent the code does not
    append one new line but two, an empty one and then the entry.  For the
    file [A=1] the stated merge gives the lines [A=1],
    [TELEGRAM_BOT_TOKEN=new], [TELEGRAM_CHAT_ID=555]; the code writes an
    empty line after [A=1].  The file has no carriage return: the text
    read is its content. *)
Lemma C6_blank_line_before_appended_token :
  let before := Env.file_of ["A=1"%string] in
  let after := Env.save_credentials (lit "new") (lit "555") (Some before) in
  Env.writelines (Env.spec_merge (lit "new") (lit "555")
                    (Env.readlines before))
  = Env.file_of ["A=1"; "TELEGRAM_BOT_TOKEN=new"; "TELEGRAM_CHAT_ID=555"]%string
  /\
  after
  = Env.file_of ["A=1"; ""; "TELEGRAM_BOT_TOKEN=new";
                 "TELEGRAM_CHAT_ID=555"]%string /\
  after <> Env.writelines (Env.spec_merge (lit "new") (lit "555")
                             (Env.readlines before)) /\
  Env.save_env_file (lit "new") (lit "555") (Some before) = after.
Proof.
  repeat split; try (vm_compute; reflexivity).
  intros E; vm_compute in E; discriminate.
Qed.

(** C6, amended: the file is read in text mode, so that the lines read
    are the lines of the file with every line break (a newline, a
    carriage return and a newline, or a carriage return alone) read as one
    newline.  The list of lines the code writes is the list it read in
    which every line that begins with [TELEGRAM_BOT_TOKEN=] or
    [TELEGRAM_CHAT_ID=] is replaced, in place, by the key with the new
    value and a newline, every other line is kept as read, in order;
    when no line begins with the token key the entry is appended after a
    newline character, and when no line begins with the chat key its
    entry is appended last.  For a file that is empty or ends with a line
    break, and values without newlines, the lines of the new file are
    therefore the lines read, replaced or kept, then an empty line and the
    token entry if the token key was absent, then the chat entry if the
    chat key was absent.  The text read has no carriage return, and it is
    the content of the file itself when the file has none: the kept lines
    are then the lines of the file, character for character; what is
    written has no carriage return unless the token or the chat id has
    one.  The binding [new], [555] turns the file of lines [A=1],
    [TELEGRAM_BOT_TOKEN=old], [B=2] into [A=1], [TELEGRAM_BOT_TOKEN=new],
    [B=2], [TELEGRAM_CHAT_ID=555], each ended by a newline, whether the
    lines of the old file ended with a newline or with a carriage return
    and a newline. *)
Theorem C6_merge_replaces_in_place_or_appends :
  forall (token chat_id : str) (env_lines : list str) (raw : str),
    Env.merge_lines token chat_id env_lines
    = List.map (Env.replaced token chat_id) env_lines
      ++ (if existsb (startswith Env.token_key) env_lines then []
          else [newline :: Env.token_line token])
      ++ (if existsb (startswith Env.chat_id_key) env_lines then []
          else [Env.chat_id_line chat_id])
    /\
    (~ In newline token -> ~ In newline chat_id ->
     Env.ends_with_line_break raw ->
     let lines_read := Env.readlines (Env.universal_newlines raw) in
     Env.readlines (Env.save_env_file token chat_id (Some raw))
     = List.map (Env.replaced token chat_id) lines_read
       ++ (if existsb (startswith Env.token_key) lines_read
           then [] else [[newline]; Env.token_line token])
       ++ (if existsb (startswith Env.chat_id_key) lines_read
           then [] else [Env.chat_id_line chat_id]))
    /\
    ~ In Env.cr (Env.universal_newlines raw)
    /\
    (~ In Env.cr raw -> Env.universal_newlines raw = raw)
    /\
    (~ In Env.cr token -> ~ In Env.cr chat_id ->
     ~ In Env.cr (Env.save_env_file token chat_id (Some raw)))
    /\
    Env.save_env_file (lit "new") (lit "555")
      (Some (Env.file_of ["A=1"; "TELEGRAM_BOT_TOKEN=old"; "B=2"]%string))
    = Env.file_of ["A=1"; "TELEGRAM_BOT_TOKEN=new"; "B=2";
                   "TELEGRAM_CHAT_ID=555"]%string
    /\
    Env.save_env_file (lit "new") (lit "555")
      (Some (Env.crlf_file_of
               ["A=1"; "TELEGRAM_BOT_TOKEN=old"; "B=2"]%string))
    = Env.file_of ["A=1"; "TELEGRAM_BOT_TOKEN=new"; "B=2";
                   "TELEGRAM_CHAT_ID=555"]%string.
Proof.
  intros token chat_id env_lines raw.
  split; [|split; [|split; [|split; [|split; [|split]]]]].
  - apply EnvFacts.merge_lines_eq.
  - intros Ht Hc Hend. apply EnvFacts.readlines_save_env_file; assumption.
  - apply EnvFacts.translate_has_no_cr.
  - apply EnvFacts.universal_newlines_without_cr.
  - apply EnvFacts.save_env_file_has_no_cr.
  - vm_compute. reflexivity.
  - vm_compute. reflexivity.
Qed.

Lemma C6_witness :
  Env.readlines
    (Env.save_env_file (lit "T1") (lit "777")
       (Some (Env.crlf_file_of ["A=1"; "TELEGRAM_CHAT_ID=1"; "B=2"]%string)))
  = Env.readlines
      (Env.file_of ["A=1"; "TELEGRAM_CHAT_ID=777"; "B=2"; "";
                    "TELEGRAM_BOT_TOKEN=T1"]%string).
Proof.
  etransitivity.
  - apply (proj1 (proj2 (C6_merge_replaces_in_place_or_appends
                           (lit "T1") (lit "777") []
                           (Env.crlf_file_of ["A=1"; "TELEGRAM_CHAT_ID=1";
                                              "B=2"]%string)))).
    + intros Hin; vm_compute in Hin;
        repeat (destruct Hin as [Hin | Hin]; [discriminate|]); exact Hin.
    + intros Hin; vm_compute in Hin;
        repeat (destruct Hin as [Hin | Hin]; [discriminate|]); exact Hin.
    + left. vm_compute. reflexivity.
  - vm_compute. reflexivity.
Defined.

(** C7 does not hold of the code: take the file [A=1],
    [TELEGRAM_BOT_TOKEN=old], [B=2] whose last line has no newline.  The
    first merge glues the chat entry to [B=2]; the second merge finds no
    line that begins with the chat key and appends the entry again.  (On
    a file that ends with a newline the second merge changes nothing:
    [EnvFacts.save_credentials_twice].) *)
Theorem C7_second_merge_appends_again :
  let before := (Env.file_of ["A=1"; "TELEGRAM_BOT_TOKEN=old"]%string
                 ++ lit "B=2")%list in
  let once := Env.save_credentials (lit "new") (lit "555") (Some before) in
  let twice := Env.save_credentials (lit "new") (lit "555") (Some once) in
  once = Env.file_of ["A=1"; "TELEGRAM_BOT_TOKEN=new";
                      "B=2TELEGRAM_CHAT_ID=555"]%string /\
  twice = Env.file_of ["A=1"; "TELEGRAM_BOT_TOKEN=new";
                       "B=2TELEGRAM_CHAT_ID=555";
                       "TELEGRAM_CHAT_ID=555"]%string /\
  twice <> once.
Proof.
  repeat split; try (vm_compute; reflexivity).
  intros E; vm_compute in E; discriminate.
Qed.

(** * Further properties of the code *)

(** ** [generate_pairing_code] *)

Lemma digits_at (c : char) :
  is_digit c -> nth (N.to_nat c - 48) digits 48%N = c.
Proof.
  unfold is_digit. intros Hc.
  assert (Hn : exists k, (k < 10)%nat /\ c = N.of_nat (48 + k)).
  { exists (N.to_nat c - 48)%nat. split; lia. }
  destruct Hn as (k & Hk & ->).
  replace (N.to_nat (N.of_nat (48 + k)) - 48)%nat with k by lia.
  do 10 (destruct k as [|k]; [reflexivity|]). lia.
Qed.

Lemma map_nth_seq {A B : Type} (g : A -> B) (d : A) (l : list A) :
  List.map (fun i => g (nth i l d)) (seq 0 (length l)) = List.map g l.
Proof.
  induction l as [|a l IH]; [reflexivity|].
  simpl length. simpl seq. rewrite <- seq_shift. cbn [List.map].
  rewrite map_map. f_equal. exact IH.
Qed.

(** X1: the codes [generate_pairing_code] can issue are exactly the
    strings of six decimal digits: every issued code is one, and every
    such string is issued for some draws. *)
Theorem X1_issued_codes_are_the_six_digit_strings :
  forall code : str,
    (exists rand, generate_pairing_code rand = code) <->
    (length code = 6%nat /\ Forall is_digit code).
Proof.
  intros code. split.
  - intros (rand & <-). apply generate_pairing_code_digits.
  - intros (Hlen & Hd).
    exists (fun i => (N.to_nat (nth i code 48%N) - 48)%nat).
    unfold generate_pairing_code.
    replace (seq 0 6) with (seq 0 (length code))
      by (rewrite Hlen; reflexivity).
    rewrite (map_nth_seq
               (fun c => nth ((N.to_nat c - 48) mod 10) digits 48%N)).
    clear Hlen. induction Hd as [|c l Hc _ IH]; [reflexivity|].
    cbn [List.map]. rewrite IH. f_equal.
    rewrite Nat.mod_small by (unfold is_digit in Hc; lia).
    apply digits_at. exact Hc.
Qed.

(** ** [tty_input] *)

Lemma lstrip_clean_head (s : str) : clean_head (lstrip s).
Proof.
  induction s as [|c s IH]; simpl; [exact I|].
  destruct (isspace c) eqn:E; [exact IH | exact E].
Qed.

Lemma clean_head_lstrip (t : str) : clean_head t -> lstrip t = t.
Proof.
  destruct t as [|c t]; simpl; [reflexivity|]. intros ->. reflexivity.
Qed.

Lemma clean_head_rstrip (t : str) : clean_head t -> clean_head (rstrip t).
Proof.
  destruct t as [|c t]; [intros _; exact I|]. intros Hc.
  destruct (rstrip_keeps_head c t Hc) as [r ->]. exact Hc.
Qed.

Lemma rstrip_idempotent (t : str) : rstrip (rstrip t) = rstrip t.
Proof.
  induction t as [|c t IH]; [reflexivity|].
  simpl. destruct (rstrip t) as [|d r] eqn:E.
  - destruct (isspace c) eqn:Ec; [reflexivity|].
    simpl. rewrite Ec. reflexivity.
  - change (rstrip (c :: d :: r)) with
      (match rstrip (d :: r) with
       | [] => if isspace c then [] else [c]
       | r' => c :: r'
       end).
    rewrite IH. reflexivity.
Qed.

Lemma strip_is_stripped (s : str) :
  lstrip (strip s) = strip s /\ rstrip (strip s) = strip s.
Proof.
  unfold strip. split.
  - apply clean_head_lstrip, clean_head_rstrip, lstrip_clean_head.
  - apply rstrip_idempotent.
Qed.

Lemma strip_idempotent (s : str) : strip (strip s) = strip s.
Proof.
  destruct (strip_is_stripped s) as [Hl Hr].
  unfold strip at 1. rewrite Hl. exact Hr.
Qed.

Lemma strip_normal_or_empty (s : str) : strip s = [] \/ normal (strip s).
Proof.
  destruct (strip s) as [|c t] eqn:E; [left; reflexivity|].
  right. rewrite <- E. split; [rewrite E; discriminate|].
  apply strip_is_stripped.
Qed.

Lemma lstrip_split (s : str) :
  exists before, s = before ++ lstrip s /\ blank before.
Proof.
  induction s as [|c s (b & E & Hb)].
  - exists []. split; [reflexivity | constructor].
  - simpl. destruct (isspace c) eqn:Ec.
    + exists (c :: b). split; [simpl; f_equal; exact E|].
      constructor; assumption.
    + exists []. split; [reflexivity | constructor].
Qed.

Lemma rstrip_split (t : str) :
  exists after, t = rstrip t ++ after /\ blank after.
Proof.
  induction t as [|c t (a & E & Ha)].
  - exists []. split; [reflexivity | constructor].
  - simpl. destruct (rstrip t) as [|d r] eqn:Er.
    + destruct (isspace c) eqn:Ec.
      * exists (c :: a). simpl in E. rewrite <- E.
        split; [reflexivity | constructor; [exact Ec | rewrite E; exact Ha]].
      * exists a. split; [simpl; f_equal; exact E | exact Ha].
    + exists a. split; [simpl; f_equal; exact E | exact Ha].
Qed.

Lemma rstrip_last (t : str) :
  rstrip t <> [] -> isspace (last (rstrip t) 32%N) = false.
Proof.
  induction t as [|c t IH]; [intros Hn; destruct (Hn eq_refl)|].
  simpl. destruct (rstrip t) as [|d r] eqn:Er.
  - destruct (isspace c) eqn:Ec; [intros Hn; destruct (Hn eq_refl)|].
    intros _. exact Ec.
  - intros _. change (last (c :: d :: r) 32%N) with (last (d :: r) 32%N).
    apply IH. discriminate.
Qed.

Lemma blank_strip (s : str) : blank s -> strip s = [].
Proof.
  intros Hb. unfold strip.
  assert (E : lstrip s = []).
  { induction Hb as [|c s Hc _ IH]; [reflexivity|]. simpl. rewrite Hc.
    exact IH. }
  rewrite E. reflexivity.
Qed.

Lemma strip_trimmed (s : str) : strip s <> [] -> trimmed (strip s).
Proof.
  intros Hn. split; [exact Hn|]. split.
  - pose proof (clean_head_rstrip _ (lstrip_clean_head s)) as Hc.
    fold (strip s) in Hc. destruct (strip s) as [|c t]; [destruct (Hn eq_refl)|].
    exact Hc.
  - apply rstrip_last. exact Hn.
Qed.

(** What [tty_input] makes of a line. *)
Lemma strip_taken (default line : str) :
  taken default line
    (match strip line with [] => default | _ :: _ => strip line end).
Proof.
  destruct (lstrip_split line) as (b & E1 & Hb).
  destruct (rstrip_split (lstrip line)) as (a & E2 & Ha).
  fold (strip line) in E2.
  destruct (strip line) as [|c t] eqn:Es.
  - left. split; [|reflexivity].
    rewrite E1, E2. apply Forall_app. split; assumption.
  - right. exists b, a. rewrite <- Es.
    split; [rewrite E1 at 1; rewrite E2 at 1; rewrite Es; reflexivity|].
    split; [exact Hb|]. split; [exact Ha|].
    apply strip_trimmed. rewrite Es. discriminate.
Qed.

(** X2: [tty_input] answers from what the operator gives.  When
    [input()] gives a line, the answer is made of that line and the
    terminal is not read; when [input()] raises [EOFError], the answer is
    made of the line read from the terminal device, and is the default
    when the device fails.  The answer made of a line is the default when
    the line is empty or blank, and otherwise the line without the white
    space around it: a non-empty string that neither begins nor ends with
    white space.  So the answer is always the default or a non-empty
    stripped string. *)
Theorem X2_tty_input_answer_is_default_or_stripped :
  forall {W : Type} `{Host W} (default : str) (w : W),
    match py_input w with
    | (Line line, w1) =>
        snd (tty_input default w) = w1 /\
        taken default line (fst (tty_input default w))
    | (EOFError, w1) =>
        match tty_readline w1 with
        | (Some line, w2) =>
            snd (tty_input default w) = w2 /\
            taken default line (fst (tty_input default w))
        | (None, w2) => tty_input default w = (default, w2)
        end
    end /\
    (fst (tty_input default w) = default \/
     normal (fst (tty_input default w))).
Proof.
  intros W HW default w. unfold tty_input.
  assert (Hpick : forall line,
    match strip line with [] => default | _ :: _ => strip line end = default
    \/ normal (match strip line with
               | [] => default
               | _ :: _ => strip line
               end)).
  { intros line. destruct (strip_normal_or_empty line) as [E | Hn].
    - rewrite E. left; reflexivity.
    - destruct (strip line) eqn:E; [left; reflexivity | right; exact Hn]. }
  destruct (py_input w) as [[line|] w1]; cbn [fst snd].
  - split; [split; [reflexivity | apply strip_taken] | apply Hpick].
  - destruct (tty_readline w1) as [[line|] w2]; cbn [fst snd].
    + split; [split; [reflexivity | apply strip_taken] | apply Hpick].
    + split; [reflexivity | left; reflexivity].
Qed.

(** A blank line typed at the prompt gives the default and leaves the
    terminal alone; at the end of the standard input the answer comes
    from the terminal, stripped. *)
Example tty_input_on_a_desk :
  let d (keys term : list string) :=
    {| Desk.net := Sim.serving []; Desk.stdin := List.map lit keys;
       Desk.tty := List.map lit term; Desk.bots := [];
       Desk.disk := EnvAbsent; Desk.writable := true;
       Desk.environ := [] |} in
  fst (tty_input (lit "n") (d ["  "] ["y"]))%string = lit "n" /\
  Desk.tty (snd (tty_input (lit "n") (d ["  "] ["y"]))%string) = [lit "y"] /\
  fst (tty_input (lit "n") (d [" yes  "] []))%string = lit "yes" /\
  fst (tty_input (lit "n") (d [] ["  y "]))%string = lit "y" /\
  fst (tty_input (lit "n") (d [] [" "]))%string = lit "n" /\
  fst (tty_input (lit "n") (d [] []))%string = lit "n".
Proof. vm_compute. repeat split. Qed.

(** ** [setup_telegram] *)

Section SetupFacts.

Context {W : Type} `{World W} `{Host W}.

Lemma tty_input_strip_normal (default : str) (w : W) :
  strip (fst (tty_input default w)) = [] \/
  normal (strip (fst (tty_input default w))).
Proof. apply strip_normal_or_empty. Qed.

Lemma verify_bot_token_true (token : str) (w w' : W) (info : option bot_info) :
  verify_bot_token token w = ((true, info), w') ->
  getMe token w = (GetMeReply true info, w').
Proof.
  unfold verify_bot_token.
  destruct (getMe token w) as [[|[|] result] w1]; intros E; inversion E.
  reflexivity.
Qed.

(** What the token loop did: the tokens it sent for verification are
    stripped and not empty, and a token is accepted on the answer [ok]
    of the service, with a non-empty description of the bot. *)
Lemma token_loop_spec (fuel : nat) (tried : list str) (w : W) :
  let '(res, tried', w') := token_loop fuel tried w in
  exists more,
    tried' = tried ++ more /\ Forall normal more /\
    match res with
    | TokenVerified token info =>
        exists earlier w1,
          more = earlier ++ [token] /\
          getMe token w1 = (GetMeReply true (Some info), w') /\
          truthy info = true
    | _ => True
    end.
Proof.
  revert tried w; induction fuel as [|fuel IH]; intros tried w.
  - simpl. exists []. rewrite app_nil_r. auto.
  - simpl.
    pose proof (tty_input_strip_normal [] w) as Hn.
    destruct (tty_input [] w) as [answer w1]. simpl in Hn.
    destruct (strip answer) as [|c t] eqn:Es; [apply IH|].
    destruct Hn as [Hn | Hn]; [discriminate|].
    destruct (verify_bot_token (c :: t) w1) as [[is_valid info] w2] eqn:Ev.
    assert (Hretry :
      let '(res, tried', w') :=
        (let (retry, w3) := tty_input [letter_y] w2 in
         if lower_is letter_n retry
         then (TokenGivenUp, tried ++ [c :: t], w3)
         else token_loop fuel (tried ++ [c :: t]) w3) in
      exists more,
        tried' = tried ++ more /\ Forall normal more /\
        match res with
        | TokenVerified token info0 =>
            exists earlier w1,
              more = earlier ++ [token] /\
              getMe token w1 = (GetMeReply true (Some info0), w') /\
              truthy info0 = true
        | _ => True
        end).
    { destruct (tty_input [letter_y] w2) as [retry w3].
      destruct (lower_is letter_n retry).
      - exists [c :: t]. auto.
      - specialize (IH (tried ++ [c :: t]) w3).
        destruct (token_loop fuel (tried ++ [c :: t]) w3) as [[res tr] w'].
        destruct IH as (more & -> & Hmore & Hres).
        exists ((c :: t) :: more). rewrite <- app_assoc. simpl.
        split; [reflexivity|]. split; [constructor; assumption|].
        destruct res; auto.
        destruct Hres as (earlier & w0 & -> & Hg & Ht).
        exists ((c :: t) :: earlier), w0. auto. }
    destruct is_valid; [|exact Hretry].
    destruct info as [info|]; [|exact Hretry].
    destruct (truthy info) eqn:Et; [|exact Hretry].
    exists [c :: t]. split; [reflexivity|]. split; [auto|].
    exists [], w1. split; [reflexivity|]. split; [|assumption].
    apply verify_bot_token_true. assumption.
Qed.

(** What a pairing attempt that paired went through. *)
Lemma pairing_attempt_paired (fuel : nat) (rand : nat -> nat) (token : str)
    (w : W) (chat_id : str) :
  let a := pairing_attempt fuel rand token w in
  paired a = Returned (Some chat_id) ->
  handshake a = wait_for_start_command fuel token 300 w /\
  result (handshake a) = Returned (Some chat_id) /\
  exists c,
    challenge a = Some c /\ result c = Returned true /\
    c = wait_for_pairing_code fuel token chat_id
          (generate_pairing_code rand) 300
          (snd (send_telegram_message token chat_id
                  (WelcomeMsg (generate_pairing_code rand))
                  (world (handshake a)))).
Proof.
  unfold pairing_attempt.
  destruct (result (wait_for_start_command fuel token 300 w))
    as [[[|ch id]|]|] eqn:Eh; simpl; try discriminate.
  destruct (send_telegram_message token (ch :: id)
              (WelcomeMsg (generate_pairing_code rand))
              (world (wait_for_start_command fuel token 300 w)))
    as [sent w1] eqn:Es.
  simpl.
  destruct (result (wait_for_pairing_code fuel token (ch :: id)
                      (generate_pairing_code rand) 300 w1))
    as [[|]|] eqn:Ec; try discriminate.
  intros E; inversion E; subst chat_id.
  split; [reflexivity|]. split; [assumption|].
  eexists. split; [reflexivity|]. split; [assumption|].
  rewrite Es. reflexivity.
Qed.

End SetupFacts.

(** X3: [setup_telegram] returns [True] only when the whole protocol
    went through: the token it uses is stripped, not empty, and is the
    last one it sent to [getMe], which answered [ok] with a non-empty
    description of the bot; the pairing attempt began in the state that
    answer left; the handshake returned the chat id from a delivered
    update whose stripped text is [/start]; the challenge returned [True]
    on a delivered message of that same chat whose stripped text is the
    issued code; after the confirmation message the [.env] file was read
    without an error, the content written, with success, is the merge of
    this token and this chat id into what was read, and both values were
    put in the environment of the process. *)
Theorem X3_setup_succeeds_only_after_both_phases :
  forall {W : Type} `{World W} `{Host W} (fuel : nat) (rand : nat -> nat)
         (w : W),
    let r := setup_telegram fuel rand w in
    su_ending r = Ended true -> went_through fuel rand r.
Proof.
  intros W HW HH fuel rand w r. subst r.
  unfold went_through, setup_telegram.
  destruct (tty_input [letter_n] w) as [setup w1].
  destruct (lower_is letter_y setup); simpl; [|discriminate].
  destruct (py_input w1) as [[line|] w2]; [|discriminate].
  pose proof (token_loop_spec fuel [] w2) as Htok.
  destruct (token_loop fuel [] w2) as [[[token info| |] tried] w3];
    try discriminate.
  destruct Htok as (more & -> & Hmore & earlier & w0 & -> & Hget & Htruthy).
  pose proof (pairing_attempt_paired fuel rand token w3) as Hpair.
  simpl in Hpair.
  destruct (paired (pairing_attempt fuel rand token w3))
    as [[chat_id|]|] eqn:Ep; try discriminate.
  specialize (Hpair chat_id eq_refl).
  destruct Hpair as (Hh & Hhres & c & Hc & Hcres & Ec).
  rewrite Hc.
  destruct (send_telegram_message token chat_id ConfirmMsg (world c))
    as [sent w5] eqn:Esend.
  unfold persist.
  destruct (read_env w5) as [old w6] eqn:Eread.
  assert (Hfound :
    (exists e u, In e (log (handshake (pairing_attempt fuel rand token w3)))
                 /\ In u (delivered e) /\ starts u chat_id) /\
    (exists e u, In e (log c) /\ In u (delivered e) /\
                 answers chat_id (generate_pairing_code rand) u)).
  { split.
    - rewrite Hh in Hhres |- *.
      apply wait_for_start_command_Some in Hhres.
      destruct Hhres as (l & e & u & El & Hin & Hs & _).
      exists e, u. rewrite El. split; [|auto].
      apply in_or_app. right. left. reflexivity.
    - rewrite Ec in Hcres |- *.
      apply wait_for_pairing_code_True in Hcres;
        [|apply generate_pairing_code_nonempty].
      destruct Hcres as (l & e & u & El & Hin & Ha & _).
      exists e, u. rewrite El. split; [|auto].
      apply in_or_app. right. left. reflexivity. }
  destruct Hfound as [Hstart Hanswer].
  assert (Hnormal : normal token).
  { apply Forall_app in Hmore. destruct Hmore as [_ Hm].
    inversion Hm. assumption. }
  destruct old as [|content|]; simpl; [| |discriminate].
  - destruct (write_env _ w6) as [[|] w7] eqn:Ewrite; simpl; [|discriminate].
    destruct (set_environ _ token w7) as [[|] w8] eqn:Etok; simpl;
      [|discriminate].
    destruct (set_environ _ chat_id w8) as [[|] w9] eqn:Echat; simpl;
      [|discriminate].
    intros _.
    exists token, info, earlier, w0, w3, chat_id, c, EnvAbsent, w6, w7, w8.
    repeat match goal with |- _ /\ _ => split end;
      try reflexivity; try assumption; try discriminate;
      rewrite Esend; exact Eread.
  - destruct (write_env _ w6) as [[|] w7] eqn:Ewrite; simpl; [|discriminate].
    destruct (set_environ _ token w7) as [[|] w8] eqn:Etok; simpl;
      [|discriminate].
    destruct (set_environ _ chat_id w8) as [[|] w9] eqn:Echat; simpl;
      [|discriminate].
    intros _.
    exists token, info, earlier, w0, w3, chat_id, c, (EnvContent content),
      w6, w7, w8.
    repeat match goal with |- _ /\ _ => split end;
      try reflexivity; try assumption; try discriminate;
      rewrite Esend; exact Eread.
Qed.

Lemma X3_witness :
  went_through 5 draws_482913
    (setup_telegram 5 draws_482913
       (Desk.seated ["y"; ""; "  "; " T1 "]%string
          [[Sim.text_update 1 777 "/start"];
           [Sim.text_update 2 777 "482913"]]
          (EnvContent (Env.crlf_file_of ["A=1"%string])))).
Proof.
  apply X3_setup_succeeds_only_after_both_phases.
  vm_compute. reflexivity.
Defined.

(** The run of the example: the file [A=1] with a carriage return and a
    newline is written back with newlines only, followed by an empty
    line and the two entries. *)
Example setup_on_a_crlf_file :
  let r :=
    setup_telegram 5 draws_482913
      (Desk.seated ["y"; ""; "  "; " T1 "]%string
         [[Sim.text_update 1 777 "/start"];
          [Sim.text_update 2 777 "482913"]]
         (EnvContent (Env.crlf_file_of ["A=1"%string]))) in
  su_ending r = Ended true /\
  Desk.disk (su_world r)
  = EnvContent (Env.file_of ["A=1"; ""; "TELEGRAM_BOT_TOKEN=T1";
                             "TELEGRAM_CHAT_ID=777"]%string).
Proof. vm_compute. split; reflexivity. Qed.

Section HostFacts.

Context {W : Type} (H1 H2 : Host W).
Hypothesis Hsame : same_console H1 H2.

Lemma tty_input_same (default : str) (w : W) :
  @tty_input W H1 default w = @tty_input W H2 default w.
Proof.
  destruct Hsame as (Hi & Ht & _). unfold tty_input. rewrite Hi.
  destruct (@py_input W H2 w) as [[line|] w1]; [reflexivity|].
  rewrite Ht. reflexivity.
Qed.

Lemma verify_bot_token_same (token : str) (w : W) :
  @verify_bot_token W H1 token w = @verify_bot_token W H2 token w.
Proof.
  destruct Hsame as (_ & _ & Hg). unfold verify_bot_token. rewrite Hg.
  reflexivity.
Qed.

Lemma token_loop_same (fuel : nat) (tried : list str) (w : W) :
  @token_loop W H1 fuel tried w = @token_loop W H2 fuel tried w.
Proof.
  revert tried w. induction fuel as [|fuel IH]; intros tried w;
    [reflexivity|].
  cbn [token_loop]. rewrite tty_input_same.
  destruct (@tty_input W H2 [] w) as [answer w1].
  destruct (strip answer) as [|c t]; [apply IH|].
  rewrite verify_bot_token_same.
  destruct (@verify_bot_token W H2 (c :: t) w1) as [[is_valid info] w2].
  assert (Hretry :
    (let (retry, w3) := @tty_input W H1 [letter_y] w2 in
     if lower_is letter_n retry
     then (TokenGivenUp, tried ++ [c :: t], w3)
     else @token_loop W H1 fuel (tried ++ [c :: t]) w3)
    = (let (retry, w3) := @tty_input W H2 [letter_y] w2 in
       if lower_is letter_n retry
       then (TokenGivenUp, tried ++ [c :: t], w3)
       else @token_loop W H2 fuel (tried ++ [c :: t]) w3)).
  { rewrite tty_input_same.
    destruct (@tty_input W H2 [letter_y] w2) as [retry w3].
    destruct (lower_is letter_n retry); [reflexivity | apply IH]. }
  destruct is_valid; [|exact Hretry].
  destruct info as [info|]; [|exact Hretry].
  destruct (truthy info); [reflexivity | exact Hretry].
Qed.

End HostFacts.

(** X4: [setup_telegram] has nothing to do with the [.env] file, nor
    with the environment of the process, unless the pairing attempt
    bound a chat.  Put the same operator and the same service before two
    hosts that differ by what reading the file, writing it and setting
    the environment do: the tokens tried, the token verified and the
    pairing attempt are the same, and either the attempt bound a chat or
    the two runs are the same run, with the same outcome and the same
    final state. *)
Theorem X4_env_file_is_touched_only_after_pairing :
  forall {W : Type} (HW : World W) (H1 H2 : Host W) (fuel : nat)
         (rand : nat -> nat) (w : W),
    same_console H1 H2 ->
    let r1 := @setup_telegram W HW H1 fuel rand w in
    let r2 := @setup_telegram W HW H2 fuel rand w in
    su_tried r1 = su_tried r2 /\ su_token r1 = su_token r2 /\
    su_attempt r1 = su_attempt r2 /\
    (r1 = r2 \/
     exists a chat_id,
       su_attempt r1 = Some a /\ paired a = Returned (Some chat_id)).
Proof.
  intros W HW H1 H2 fuel rand w Hsame r1 r2. subst r1 r2.
  unfold setup_telegram.
  rewrite (tty_input_same H1 H2 Hsame).
  destruct (@tty_input W H2 [letter_n] w) as [setup w1].
  destruct (lower_is letter_y setup); cbn [negb];
    [|repeat split; left; reflexivity].
  rewrite (proj1 Hsame w1).
  destruct (@py_input W H2 w1) as [[line|] w2];
    [|repeat split; left; reflexivity].
  rewrite (token_loop_same H1 H2 Hsame).
  destruct (@token_loop W H2 fuel [] w2) as [[[token info| |] tried] w3];
    try (repeat split; left; reflexivity).
  destruct (paired (pairing_attempt fuel rand token w3))
    as [[chat_id|]|] eqn:Ep; try (repeat split; left; reflexivity).
  destruct (send_telegram_message _ _ _ _) as [sent w5].
  destruct (@persist W H1 token chat_id w5) as [[[saved1 rd1] wr1] w6].
  destruct (@persist W H2 token chat_id w5) as [[[saved2 rd2] wr2] w7].
  cbn [su_tried su_token su_attempt].
  repeat split. right. exists (pairing_attempt fuel rand token w3), chat_id.
  split; [reflexivity | exact Ep].
Qed.

(** An operator who agrees and gives the token, before a service that
    delivers nothing: the handshake ends on its timeout, and the run is
    the same on a desk whose file cannot be opened. *)
Lemma X4_witness :
  let w := Desk.seated ["y"; ""; "T1"]%string [] EnvAbsent in
  same_console Desk.desk_host Desk.locked_host /\
  su_ending (@setup_telegram _ Desk.desk_world Desk.desk_host 200
               draws_482913 w) = Ended false /\
  @setup_telegram _ Desk.desk_world Desk.desk_host 200 draws_482913 w
  = @setup_telegram _ Desk.desk_world Desk.locked_host 200 draws_482913 w.
Proof.
  intros w.
  assert (Hsame : same_console Desk.desk_host Desk.locked_host)
    by (repeat split; intros; reflexivity).
  split; [exact Hsame|]. split; [vm_compute; reflexivity|].
  destruct (X4_env_file_is_touched_only_after_pairing Desk.desk_world
              Desk.desk_host Desk.locked_host 200 draws_482913 w Hsame)
    as (_ & _ & _ & [E | (a & chat_id & Ea & Ep)]); [exact E|].
  vm_compute in Ea. inversion Ea; subst a. vm_compute in Ep. discriminate.
Defined.

(** X5: the loop that asks for the token sends for verification only
    tokens that are stripped and not empty (a blank answer is asked again
    without a request); it ends with a token only on an answer [ok] of
    [getMe] that carries a non-empty description of the bot, and that
    token is the last one it tried. *)
Theorem X5_token_loop_verifies_stripped_tokens :
  forall {W : Type} `{World W} `{Host W} (fuel : nat) (w : W),
    Forall normal (snd (fst (token_loop fuel [] w))) /\
    match fst (fst (token_loop fuel [] w)) with
    | TokenVerified token info =>
        truthy info = true /\
        exists earlier w1,
          snd (fst (token_loop fuel [] w)) = earlier ++ [token] /\
          getMe token w1
          = (GetMeReply true (Some info), snd (token_loop fuel [] w))
    | _ => True
    end.
Proof.
  intros W HW HH fuel w.
  pose proof (token_loop_spec fuel [] w) as Hs.
  destruct (token_loop fuel [] w) as [[res tried] w'].
  destruct Hs as (more & -> & Hmore & Hres). simpl.
  split; [assumption|].
  destruct res; auto.
  destruct Hres as (earlier & w1 & -> & Hg & Ht).
  split; [assumption|]. exists earlier, w1. auto.
Qed.

(** X6: [setup_telegram] lets an [EOFError] escape in exactly one case:
    the operator agreed to the setup, [y] or [Y] (an answer [tty_input]
    can take from the terminal device when the standard input is at its
    end), and the plain [input()] of the prompt that follows meets the end
    of the standard input.  Nothing has been sent to the service then. *)
Theorem X6_only_the_enter_prompt_raises :
  forall {W : Type} `{World W} `{Host W} (fuel : nat) (rand : nat -> nat)
         (w : W),
    let r := setup_telegram fuel rand w in
    (su_ending r = RaisedEOFError <->
     lower_is letter_y (fst (tty_input [letter_n] w)) = true /\
     fst (py_input (snd (tty_input [letter_n] w))) = EOFError) /\
    (su_ending r = RaisedEOFError ->
     su_tried r = [] /\ su_attempt r = None /\ su_write r = None).
Proof.
  intros W HW HH fuel rand w r. subst r. unfold setup_telegram.
  destruct (tty_input [letter_n] w) as [setup w1]. simpl.
  destruct (lower_is letter_y setup); simpl.
  2: { split; [split; [discriminate | intros [? _]; discriminate]
              | discriminate]. }
  destruct (py_input w1) as [[line|] w2]; simpl.
  2: { split; [split; auto | auto]. }
  assert (Hno : forall e : ending,
            e <> RaisedEOFError ->
            (e = RaisedEOFError <-> true = true /\ Line line = EOFError) /\
            (e = RaisedEOFError -> False)).
  { intros e He. split; [split; [contradiction | intros [_ ?]; discriminate]
                        | assumption]. }
  destruct (token_loop fuel [] w2) as [[[token info| |] tried] w3]; simpl;
    try (destruct (Hno Unfinished ltac:(discriminate)) as [H1 H2];
         split; [exact H1 | intros E; destruct (H2 E)]);
    try (destruct (Hno (Ended false) ltac:(discriminate)) as [H1 H2];
         split; [exact H1 | intros E; destruct (H2 E)]).
  destruct (paired (pairing_attempt fuel rand token w3)) as [[chat_id|]|];
    simpl;
    try (destruct (Hno Unfinished ltac:(discriminate)) as [H1 H2];
         split; [exact H1 | intros E; destruct (H2 E)]);
    try (destruct (Hno (Ended false) ltac:(discriminate)) as [H1 H2];
         split; [exact H1 | intros E; destruct (H2 E)]).
  destruct (send_telegram_message _ _ _ _) as [sent w5].
  destruct (persist token chat_id w5) as [[[saved rd] wr] w6]. simpl.
  destruct (Hno (Ended saved) ltac:(discriminate)) as [H1 H2].
  split; [exact H1 | intros E; destruct (H2 E)].
Qed.

Lemma X6_witness :
  let d :=
    {| Desk.net := Sim.serving []; Desk.stdin := []; Desk.tty := [lit "y"];
       Desk.bots := []; Desk.disk := EnvAbsent; Desk.writable := true;
       Desk.environ := [] |} in
  let r := setup_telegram 5 draws_482913 d in
  su_ending r = RaisedEOFError /\
  su_tried r = [] /\ su_attempt r = None /\ su_write r = None.
Proof.
  intros d r.
  pose proof (X6_only_the_enter_prompt_raises 5 draws_482913 d)
    as [Hiff Hthen].
  assert (E : su_ending r = RaisedEOFError).
  { apply Hiff. split; vm_compute; reflexivity. }
  split; [exact E | apply Hthen; exact E].
Defined.

(** ** More on the polling loops *)

Section RateFacts.

Context {W : Type} `{World W} {A : Type}.
Variable request : Z -> option Z.
Variable body : update -> Z -> signal A * Z.
Variable on_timeout : A.
Hypothesis Hclock : ticking.

Local Opaque Z.mul.

(** With the two seconds of sleep between polls, a run that starts [d]
    seconds into its time makes at most one poll per two seconds left. *)
Lemma poll_loop_rate (fuel : nat) (token : str)
    (start_time timeout offset d : Z) (w : W) :
  d <= clock w - start_time ->
  2 * Z.of_nat (length (log (poll_loop request body on_timeout fuel token
                               start_time timeout offset w)))
  <= Z.max 0 (timeout - d + 1).
Proof.
  revert offset d w; induction fuel as [|fuel IH]; intros offset d w Hd;
    [simpl; lia|].
  assert (Hnext : forall w2 o',
    clock (snd (time_time w)) <= clock w2 ->
    2 * Z.of_nat (length (log (poll_loop request body on_timeout fuel token
                                 start_time timeout o' (time_sleep 2 w2))))
    <= Z.max 0 (timeout - (d + 2) + 1)).
  { intros w2 o' Hw2. apply IH.
    pose proof (time_time_steady Hclock w).
    pose proof (time_sleep_forward Hclock 2 w2). lia. }
  pose proof (getUpdates_forward Hclock token (request offset)
                (snd (time_time w))) as Hfetch.
  unfold clock in Hd.
  simpl. destruct (time_time w) as [now w1]. simpl in *.
  destruct (now - start_time <? timeout) eqn:Eg; [|simpl; lia].
  apply Z.ltb_lt in Eg.
  destruct (getUpdates token (request offset) w1) as [resp w2].
  simpl in Hfetch.
  destruct (round body resp offset) as [[s o'] seen].
  specialize (Hnext w2 o' Hfetch).
  destruct s; cbn [log length]; lia.
Qed.

End RateFacts.

(** X7: with a clock that moves forward, neither phase makes more than
    one request per two seconds of its timeout: at most [timeout/2]
    polls, rounded up (150 for the 300 seconds of [setup_telegram]), and
    none when the timeout is not positive. *)
Theorem X7_polls_are_two_seconds_apart :
  forall {W : Type} `{World W} (Hclock : ticking) (fuel : nat)
         (token chat_id code : str) (timeout : Z) (w : W),
    2 * Z.of_nat (length (log (wait_for_start_command fuel token timeout w)))
    <= Z.max 0 (timeout + 1) /\
    2 * Z.of_nat (length (log (wait_for_pairing_code fuel token chat_id code
                                 timeout w)))
    <= Z.max 0 (timeout + 1).
Proof.
  intros W HW Hclock fuel token chat_id code timeout w.
  rewrite wait_for_start_command_eq, wait_for_pairing_code_eq.
  pose proof (time_time_steady Hclock w) as Hs.
  split.
  - replace (timeout + 1) with (timeout - 0 + 1) by lia.
    apply poll_loop_rate; [assumption | lia].
  - replace (timeout + 1) with (timeout - 0 + 1) by lia.
    apply poll_loop_rate; [assumption | lia].
Qed.

Lemma X7_witness :
  let w := Sim.serving [[Sim.text_update 1 888 "hello"]] in
  2 * Z.of_nat (length (log (wait_for_start_command 400 (lit "T1") 300 w)))
  <= 301 /\
  2 * Z.of_nat (length (log (wait_for_pairing_code 4 (lit "T1") (lit "777")
                               (lit "482913") 5 w)))
  <= 6.
Proof.
  intros w. split.
  - apply (proj1 (X7_polls_are_two_seconds_apart sim_ticking 400 (lit "T1")
                    (lit "777") (lit "482913") 300 w)).
  - apply (proj2 (X7_polls_are_two_seconds_apart sim_ticking 4 (lit "T1")
                    (lit "777") (lit "482913") 5 w)).
Defined.

(** *** Batches of ordinary text messages *)

Lemma start_update_text (i : Z) (id : chat_ident) (s : str)
    (sender : from_field) (o : Z) :
  sender <> FromOther ->
  start_update (text_message i id s sender) o
  = (if eqb (strip s) (lit "/start")
     then Return (Some (str_of_chat_id id)) else Next, i + 1).
Proof.
  intros Hs. unfold start_update, text_message, stripped_text, user_name.
  cbn [update_id msg chat text from_].
  destruct (eqb (strip s) (lit "/start")); [|reflexivity].
  destruct sender as [|[n|]|]; try reflexivity. contradiction.
Qed.

Lemma startsb_text (i : Z) (id : chat_ident) (s : str)
    (sender : from_field) :
  startsb (text_message i id s sender) = eqb (strip s) (lit "/start").
Proof. reflexivity. Qed.

Lemma answersb_text (chat_id code : str) (i : Z) (id : chat_ident) (s : str)
    (sender : from_field) :
  answersb chat_id code (text_message i id s sender)
  = eqb (str_of_chat_id id) chat_id && eqb (strip s) code.
Proof. reflexivity. Qed.

Lemma pairing_update_text (chat_id code : str) (i : Z) (id : chat_ident)
    (s : str) (sender : from_field) (o : Z) :
  pairing_update chat_id code (text_message i id s sender) o
  = (if answersb chat_id code (text_message i id s sender)
     then Return true else Next, i + 1).
Proof.
  rewrite answersb_text.
  unfold pairing_update, text_message, stripped_text.
  cbn [update_id msg chat text].
  destruct (eqb (str_of_chat_id id) chat_id); [|reflexivity].
  destruct (eqb (strip s) code); [reflexivity|].
  destruct (startswith (lit "/") (strip s)); reflexivity.
Qed.

(** A batch of text messages is read up to the first message that
    passes the test, and to its end when none does. *)
Lemma for_updates_first {A : Type} (body : update -> Z -> signal A * Z)
    (test : update -> bool) (value : update -> A) (updates : list update)
    (o : Z) :
  decides body test value ->
  Forall text_from updates ->
  (forall before u after,
      updates = before ++ u :: after ->
      forallb (fun x => negb (test x)) before = true ->
      test u = true ->
      for_updates body updates o
      = (Return (value u), cursor_after o (ids (before ++ [u])),
         ids (before ++ [u]))) /\
  (forallb (fun x => negb (test x)) updates = true ->
   for_updates body updates o
   = (Next, cursor_after o (ids updates), ids updates)).
Proof.
  intros Hbody Hall. revert o.
  induction Hall as [|x rest Hx Hrest IH]; intros o.
  - split.
    + intros [|b0 before0] u0 after0 E; discriminate.
    + reflexivity.
  - destruct Hx as (i & id & s & sender & -> & Hsender).
    pose proof (Hbody i id s sender o Hsender) as Hstep.
    destruct (IH (i + 1)) as [IHfound IHnone].
    split.
    + intros before u after E Hbefore Hu.
      destruct before as [|b before].
      * simpl in E. injection E as Eu Ea. subst u after.
        simpl for_updates. rewrite Hstep, Hu. reflexivity.
      * simpl in E. injection E as Eb Er. subst b rest. simpl in Hbefore.
        apply andb_true_iff in Hbefore. destruct Hbefore as [Hb Hbefore].
        apply negb_true_iff in Hb.
        simpl for_updates. rewrite Hstep, Hb.
        rewrite (IHfound before u after eq_refl Hbefore Hu).
        unfold cursor_after. simpl ids. simpl List.map.
        rewrite last_cons. reflexivity.
    + intros Hnone. simpl in Hnone.
      apply andb_true_iff in Hnone. destruct Hnone as [Hb Hnone].
      apply negb_true_iff in Hb.
      simpl for_updates. rewrite Hstep, Hb, (IHnone Hnone).
      unfold cursor_after. simpl ids. simpl List.map.
      rewrite last_cons. reflexivity.
Qed.

(** X8: in a batch of ordinary text messages the handshake takes the
    first message whose stripped text is [/start], from whatever chat: it
    returns the chat id of that message, with the cursor just past it, and
    does not look at the messages after it; without such a message it
    reads the whole batch and goes on. *)
Theorem X8_first_start_of_a_batch_wins :
  forall (updates : list update) (o : Z),
    Forall text_from updates ->
    (forall before u after,
        updates = before ++ u :: after ->
        forallb (fun x => negb (startsb x)) before = true ->
        startsb u = true ->
        for_updates start_update updates o
        = (Return (Some (chat_of u)), cursor_after o (ids (before ++ [u])),
           ids (before ++ [u]))) /\
    (forallb (fun x => negb (startsb x)) updates = true ->
     for_updates start_update updates o
     = (Next, cursor_after o (ids updates), ids updates)).
Proof.
  intros updates o Hall.
  apply (for_updates_first start_update startsb
           (fun u => Some (chat_of u))); [|assumption].
  intros i id s sender o' Hs.
  rewrite start_update_text by assumption. rewrite startsb_text.
  reflexivity.
Qed.

Lemma text_from_text_update (i id : Z) (t : string) :
  text_from (Sim.text_update i id t).
Proof.
  exists i, (IdInt id), (lit t), (FromDict (Some (lit "Alice"))).
  split; [reflexivity | discriminate].
Qed.

Lemma X8_witness :
  for_updates start_update
    [Sim.text_update 4 888 "hi"; Sim.text_update 5 777 " /start";
     Sim.text_update 6 999 "/start"] 0
  = (Return (Some (lit "777")), 6, [4; 5]).
Proof.
  apply (proj1 (X8_first_start_of_a_batch_wins
                  [Sim.text_update 4 888 "hi"; Sim.text_update 5 777 " /start";
                   Sim.text_update 6 999 "/start"] 0
                  ltac:(repeat constructor; apply text_from_text_update))
           [Sim.text_update 4 888 "hi"] (Sim.text_update 5 777 " /start")
           [Sim.text_update 6 999 "/start"]); reflexivity.
Defined.

(** X9: in a batch of ordinary text messages the challenge is passed as
    soon as one message of the bound chat has the issued code as its
    stripped text, whatever comes before it in the batch (wrong codes,
    commands, messages of other chats); without such a message the whole
    batch is read and the loop goes on. *)
Theorem X9_a_right_answer_is_accepted_after_wrong_ones :
  forall (chat_id code : str) (updates : list update) (o : Z),
    Forall text_from updates ->
    (forall before u after,
        updates = before ++ u :: after ->
        forallb (fun x => negb (answersb chat_id code x)) before = true ->
        answersb chat_id code u = true ->
        for_updates (pairing_update chat_id code) updates o
        = (Return true, cursor_after o (ids (before ++ [u])),
           ids (before ++ [u]))) /\
    (forallb (fun x => negb (answersb chat_id code x)) updates = true ->
     for_updates (pairing_update chat_id code) updates o
     = (Next, cursor_after o (ids updates), ids updates)).
Proof.
  intros chat_id code updates o Hall.
  apply (for_updates_first (pairing_update chat_id code)
           (answersb chat_id code) (fun _ => true)); [|assumption].
  intros i id s sender o' _. apply pairing_update_text.
Qed.

Lemma X9_witness :
  for_updates (pairing_update (lit "777") (lit "482913"))
    [Sim.text_update 1 777 "/start"; Sim.text_update 2 777 "111111";
     Sim.text_update 3 888 "482913"; Sim.text_update 4 777 "482913"] 0
  = (Return true, 5, [1; 2; 3; 4]).
Proof.
  apply (proj1 (X9_a_right_answer_is_accepted_after_wrong_ones
                  (lit "777") (lit "482913")
                  [Sim.text_update 1 777 "/start";
                   Sim.text_update 2 777 "111111";
                   Sim.text_update 3 888 "482913";
                   Sim.text_update 4 777 "482913"] 0
                  ltac:(repeat constructor; apply text_from_text_update))
           [Sim.text_update 1 777 "/start"; Sim.text_update 2 777 "111111";
            Sim.text_update 3 888 "482913"]
           (Sim.text_update 4 777 "482913") []); reflexivity.
Defined.

(** *** A service that refuses *)

Section RefusedFacts.

Context {W : Type} `{World W} {A : Type}.
Variable request : Z -> option Z.
Variable body : update -> Z -> signal A * Z.
Variable on_timeout : A.
Hypothesis body_assigns : assigns body.

Lemma refused_delivers_nothing (e : poll) : refused e -> delivered e = [].
Proof.
  unfold refused, delivered.
  destruct (lg_response e) as [f|[|] updates]; [reflexivity | contradiction
                                               | reflexivity].
Qed.

Lemma refused_observes_nothing (start_time timeout : Z) (l : list poll) :
  Forall refused l ->
  Forall (entry_ok request body start_time timeout) l ->
  observed l = [].
Proof.
  unfold observed. induction l as [|e l IH]; intros Href He;
    [reflexivity|].
  inversion Href as [|? ? Hr Hl]; subst.
  inversion He as [|? ? (_ & _ & Hround) He']; subst.
  simpl. rewrite (IH Hl He'), app_nil_r.
  unfold refused in Hr.
  destruct (lg_response e) as [f|[|] updates];
    [|contradiction|]; simpl in Hround; inversion Hround; reflexivity.
Qed.

Lemma poll_loop_refused (fuel : nat) (token : str)
    (start_time timeout : Z) (w : W) :
  let r := poll_loop request body on_timeout fuel token start_time timeout
             0 w in
  Forall refused (log r) ->
  offset_end r = 0 /\
  forall v, result r = Returned v ->
            v = on_timeout /\
            exists t, expired r = Some t /\ timeout <= t - start_time.
Proof.
  intros r Href. split.
  - destruct (poll_loop_cursor request body on_timeout body_assigns fuel
                token start_time timeout w) as [[_ Hend] _].
    fold r in Hend. rewrite Hend.
    rewrite (refused_observes_nothing start_time timeout (log r) Href);
      [reflexivity|].
    apply poll_loop_entries.
  - intros v Hv. apply poll_loop_Returned in Hv. fold r in Hv.
    destruct Hv as [(t & Ht & Hle & Ev) | (_ & l & e & u & o1 & El & Hin & _)].
    + split; [assumption|]. exists t; auto.
    + exfalso. rewrite El in Href. apply Forall_app in Href.
      destruct Href as [_ Href]. inversion Href as [|? ? Hr _]; subst.
      rewrite (refused_delivers_nothing e Hr) in Hin. contradiction.
Qed.

End RefusedFacts.

(** X10: a service that refuses every request ([ok] false, as for a token
    that is no longer valid) or that cannot be reached is not told from
    silence: with a clock that moves forward and fuel for the timeout,
    the handshake then returns [None] and the challenge [False], both
    from the loop guard once the timeout has elapsed, and the cursor has
    stayed at 0. *)
Theorem X10_a_refusing_service_ends_in_the_timeout :
  forall {W : Type} `{World W} (Hclock : ticking) (fuel : nat)
         (token chat_id code : str) (timeout : Z) (w : W),
    (Z.to_nat timeout < fuel)%nat ->
    let h := wait_for_start_command fuel token timeout w in
    let c := wait_for_pairing_code fuel token chat_id code timeout w in
    (Forall refused (log h) ->
     result h = Returned None /\ offset_end h = 0 /\
     exists t, expired h = Some t /\ timeout <= t - clock w) /\
    (Forall refused (log c) ->
     result c = Returned false /\ offset_end c = 0 /\
     exists t, expired c = Some t /\ timeout <= t - clock w).
Proof.
  intros W HW Hclock fuel token chat_id code timeout w Hfuel h c.
  assert (Hmeasure :
    (Z.to_nat (timeout - (clock (snd (time_time w)) - clock w)) < fuel)%nat).
  { pose proof (time_time_steady Hclock w). lia. }
  split.
  - subst h. rewrite wait_for_start_command_eq. intros Href.
    destruct (poll_loop_refused start_request start_update None
                start_update_assigns fuel token (clock w) timeout
                (snd (time_time w)) Href) as [Hend Hres].
    destruct (poll_loop_returns start_request start_update None Hclock
                fuel token (clock w) timeout 0 (snd (time_time w)) Hmeasure)
      as [v Hv].
    destruct (Hres v Hv) as [-> Ht]. auto.
  - subst c. rewrite wait_for_pairing_code_eq. intros Href.
    destruct (poll_loop_refused pairing_request
                (pairing_update chat_id code) false
                (pairing_update_assigns chat_id code) fuel token (clock w)
                timeout (snd (time_time w)) Href) as [Hend Hres].
    destruct (poll_loop_returns pairing_request
                (pairing_update chat_id code) false Hclock
                fuel token (clock w) timeout 0 (snd (time_time w)) Hmeasure)
      as [v Hv].
    destruct (Hres v Hv) as [-> Ht]. auto.
Qed.

Lemma refused_check (l : list poll) :
  forallb refusedb l = true -> Forall refused l.
Proof.
  intros Hall. apply Forall_forall. intros e He.
  rewrite forallb_forall in Hall. specialize (Hall e He).
  unfold refusedb in Hall. unfold refused.
  destruct (lg_response e) as [f|[|] updates]; [exact I | discriminate
                                               | exact I].
Qed.

Lemma X10_witness :
  let w := Sim.failing [Some IOFailure; Some ParseFailure; Some IOFailure;
                        Some IOFailure; Some IOFailure]
             [[Sim.text_update 1 777 "/start"]] in
  let h := wait_for_start_command 11 (lit "T1") 10 w in
  result h = Returned None /\ offset_end h = 0 /\
  exists t, expired h = Some t /\ 10 <= t - clock w.
Proof.
  intros w h.
  assert (Hfuel : (Z.to_nat 10 < 11)%nat) by (vm_compute; lia).
  apply (proj1 (X10_a_refusing_service_ends_in_the_timeout sim_ticking 11
                  (lit "T1") (lit "777") (lit "482913") 10 w Hfuel)).
  apply refused_check. vm_compute. reflexivity.
Defined.

(** ** More on the credential store *)

Module EnvMore.

Import Env EnvFacts.

Lemma concat_readlines (content : str) :
  List.concat (readlines content) = content.
Proof.
  induction content as [|x rest IH]; [reflexivity|].
  simpl. destruct (N.eqb_spec x newline) as [->|Hx].
  - simpl. rewrite IH. reflexivity.
  - destruct (readlines rest) as [|l ls] eqn:E.
    + apply readlines_nil in E. subst rest. reflexivity.
    + simpl in *. rewrite IH. reflexivity.
Qed.

Lemma replaced_other (token chat_id line : str) :
  startswith token_key line = false ->
  startswith chat_id_key line = false ->
  replaced token chat_id line = line.
Proof. unfold replaced. intros -> ->. reflexivity. Qed.




End EnvMore.




(** The merge of a text in which no line begins with one of the keys:
    the text, a newline, the token entry and the chat entry. *)
Lemma save_credentials_without_keys (token chat_id content : str) :
  existsb (startswith Env.token_key) (Env.readlines content) = false ->
  existsb (startswith Env.chat_id_key) (Env.readlines content) = false ->
  Env.save_credentials token chat_id (Some content)
  = content ++ [newline] ++ Env.token_line token
    ++ Env.chat_id_line chat_id.
Proof.
  intros Ht Hc.
  unfold Env.save_credentials, Env.writelines.
  rewrite EnvFacts.merge_lines_eq, Ht, Hc.
  rewrite !concat_app.
  replace (List.map (Env.replaced token chat_id) (Env.readlines content))
    with (Env.readlines content).
  - rewrite EnvMore.concat_readlines. simpl. rewrite !app_nil_r.
    reflexivity.
  - symmetry. rewrite <- (map_id (Env.readlines content)) at 2.
    apply map_ext_in. intros l Hl.
    apply EnvMore.replaced_other.
    + destruct (startswith Env.token_key l) eqn:E; [|reflexivity].
      assert (T : existsb (startswith Env.token_key) (Env.readlines content)
                  = true)
        by (apply existsb_exists; exists l; auto).
      congruence.
    + destruct (startswith Env.chat_id_key l) eqn:E; [|reflexivity].
      assert (T : existsb (startswith Env.chat_id_key)
                    (Env.readlines content) = true)
        by (apply existsb_exists; exists l; auto).
      congruence.
Qed.

(** X12: a file in which no line, as read in text mode, begins with
    [TELEGRAM_BOT_TOKEN=] or [TELEGRAM_CHAT_ID=] is kept as it was read,
    however it ends: the new content is the text read (the old content
    with every carriage return and newline, and every carriage return
    alone, turned into a newline), followed by a newline, the token entry
    and the chat entry.  When the file has no carriage return the new
    content is the old one itself followed by these. *)
Theorem X12_a_file_without_the_keys_is_kept_as_read :
  forall (token chat_id raw : str),
    let lines_read := Env.readlines (Env.universal_newlines raw) in
    existsb (startswith Env.token_key) lines_read = false ->
    existsb (startswith Env.chat_id_key) lines_read = false ->
    Env.save_env_file token chat_id (Some raw)
    = Env.universal_newlines raw ++ [newline] ++ Env.token_line token
      ++ Env.chat_id_line chat_id
    /\
    (~ In Env.cr raw ->
     Env.save_env_file token chat_id (Some raw)
     = raw ++ [newline] ++ Env.token_line token
       ++ Env.chat_id_line chat_id).
Proof.
  intros token chat_id raw lines_read Ht Hc. subst lines_read.
  assert (E : Env.save_env_file token chat_id (Some raw)
              = Env.universal_newlines raw ++ [newline]
                ++ Env.token_line token ++ Env.chat_id_line chat_id).
  { rewrite EnvFacts.save_env_file_eq. cbn [option_map].
    apply save_credentials_without_keys; assumption. }
  split; [exact E|].
  intros Hno. rewrite E.
  rewrite EnvFacts.universal_newlines_without_cr by assumption.
  reflexivity.
Qed.

Lemma X12_witness :
  Env.save_env_file (lit "T1") (lit "777")
    (Some (Env.crlf_file_of ["# keys"; "OPENROUTER_KEY=k"]%string
           ++ lit "X=1"))
  = (Env.file_of ["# keys"; "OPENROUTER_KEY=k"]%string ++ lit "X=1")
    ++ [newline] ++ Env.token_line (lit "T1")
    ++ Env.chat_id_line (lit "777").
Proof.
  etransitivity.
  - refine (proj1 (X12_a_file_without_the_keys_is_kept_as_read
                     (lit "T1") (lit "777")
                     (Env.crlf_file_of ["# keys"; "OPENROUTER_KEY=k"]%string
                      ++ lit "X=1") _ _));
      vm_compute; reflexivity.
  - vm_compute. reflexivity.
Defined.



(** *** Each update once *)

Lemma sorted_app (l1 l2 : list Z) :
  StronglySorted Z.lt l1 -> StronglySorted Z.lt l2 ->
  (forall x y, In x l1 -> In y l2 -> x < y) ->
  StronglySorted Z.lt (l1 ++ l2).
Proof.
  intros H1 H2 H12. induction H1 as [|a l1 Hs IH Ha]; [exact H2|].
  simpl. constructor.
  - apply IH. intros x y Hx Hy. apply H12; [right|]; assumption.
  - apply Forall_app. split; [assumption|].
    apply Forall_forall. intros y Hy. apply H12; [left; reflexivity|].
    assumption.
Qed.

Lemma sorted_prefix (l1 l2 : list Z) :
  StronglySorted Z.lt (l1 ++ l2) -> StronglySorted Z.lt l1.
Proof.
  induction l1 as [|a l1 IH]; [constructor|].
  simpl. intros Hs. inversion Hs as [|? ? Hs' Hall]; subst.
  constructor; [auto|]. apply Forall_app in Hall. tauto.
Qed.

Lemma sorted_below_cursor (o : Z) (seen : list Z) :
  StronglySorted Z.lt seen ->
  Forall (fun i => o <= i) seen ->
  o <= cursor_after o seen /\
  Forall (fun i => i < cursor_after o seen) seen.
Proof.
  intros Hs. revert o. induction Hs as [|a l Hs IH Ha]; intros o Ho.
  - split; [reflexivity | constructor].
  - inversion Ho as [|? ? Hoa Hol]; subst.
    unfold cursor_after. simpl List.map. rewrite last_cons.
    fold (cursor_after (Z.succ a) l).
    assert (Hl : Forall (fun i => Z.succ a <= i) l).
    { eapply Forall_impl; [|exact Ha]. intros i Hi. simpl in Hi. lia. }
    destruct (IH (Z.succ a) Hl) as [Hle Hlt].
    split; [lia|]. constructor; [lia | assumption].
Qed.

Lemma sorted_NoDup (l : list Z) : StronglySorted Z.lt l -> NoDup l.
Proof.
  induction 1 as [|a l Hs IH Ha]; constructor; [|assumption].
  intros Hin. rewrite Forall_forall in Ha. specialize (Ha a Hin). lia.
Qed.

Section OnceFacts.

Context {A : Type}.
Variable request : Z -> option Z.
Variable body : update -> Z -> signal A * Z.
Hypothesis body_assigns : assigns body.

(** What a poll has seen is the beginning of what it was handed. *)
Lemma entry_seen_prefix (start_time timeout : Z) (e : poll) :
  entry_ok request body start_time timeout e ->
  lg_after e = cursor_after (lg_offset e) (lg_seen e) /\
  exists rest, ids (delivered e) = lg_seen e ++ rest.
Proof.
  intros (_ & _ & Hround). split.
  - pose proof (round_offset body body_assigns (lg_response e) (lg_offset e))
      as Ho.
    rewrite Hround in Ho. exact Ho.
  - unfold delivered.
    destruct (lg_response e) as [f|[|] updates]; simpl in Hround.
    + inversion Hround. exists []. reflexivity.
    + pose proof (for_updates_seen body updates (lg_offset e)) as Hs.
      rewrite Hround in Hs. exact Hs.
    + inversion Hround. exists []. reflexivity.
Qed.

Lemma chained_once (start_time timeout : Z) (l : list poll)
    (o final : Z) (prev : list Z) :
  chained o l final ->
  Forall (entry_ok request body start_time timeout) l ->
  Forall honours l ->
  StronglySorted Z.lt prev ->
  Forall (fun i => i < o) prev ->
  StronglySorted Z.lt (prev ++ observed l).
Proof.
  revert o prev. induction l as [|e l IH]; intros o prev Hc He Hh Hp Hlt.
  - unfold observed. simpl. rewrite app_nil_r. assumption.
  - destruct Hc as [Ho Hc].
    inversion He as [|? ? He1 He']; subst.
    inversion Hh as [|? ? (Hsorted & Hfrom) Hh']; subst.
    destruct (entry_seen_prefix _ _ _ He1) as (Hafter & rest & Eids).
    rewrite Eids in Hsorted, Hfrom.
    apply sorted_prefix in Hsorted.
    apply Forall_app in Hfrom. destruct Hfrom as [Hfrom _].
    destruct (sorted_below_cursor (lg_offset e) (lg_seen e) Hsorted Hfrom)
      as [Hle Hbelow].
    rewrite <- Hafter in Hle, Hbelow.
    unfold observed. simpl. fold (observed l). rewrite app_assoc.
    apply (IH (lg_after e)); try assumption.
    + apply sorted_app; try assumption.
      intros x y Hx Hy.
      rewrite Forall_forall in Hlt, Hfrom.
      specialize (Hlt x Hx). specialize (Hfrom y Hy). lia.
    + apply Forall_app. split; [|assumption].
      eapply Forall_impl; [|exact Hlt]. intros i Hi. simpl in Hi. lia.
Qed.

End OnceFacts.

(** X14: within one phase each update is seen once.  When every answer
    of the service honours the requested offset (ids strictly ascending
    and none below the cursor of the request), the ids the loop sees
    over the whole run are strictly ascending: no update is processed
    twice, in neither phase. *)
Theorem X14_within_a_phase_each_update_is_seen_once :
  forall {W : Type} `{World W} (fuel : nat) (token chat_id code : str)
         (timeout : Z) (w : W),
    let h := wait_for_start_command fuel token timeout w in
    let c := wait_for_pairing_code fuel token chat_id code timeout w in
    (Forall honours (log h) ->
     StronglySorted Z.lt (observed (log h)) /\ NoDup (observed (log h))) /\
    (Forall honours (log c) ->
     StronglySorted Z.lt (observed (log c)) /\ NoDup (observed (log c))).
Proof.
  intros W HW fuel token chat_id code timeout w h c. subst h c.
  rewrite wait_for_start_command_eq, wait_for_pairing_code_eq.
  split; intros Hh.
  - assert (Hs : StronglySorted Z.lt
                   (observed (log (poll_loop start_request start_update None
                                     fuel token (clock w) timeout 0
                                     (snd (time_time w)))))).
    { change (StronglySorted Z.lt
                ([] ++ observed
                         (log (poll_loop start_request start_update None
                                 fuel token (clock w) timeout 0
                                 (snd (time_time w)))))).
      eapply (chained_once start_request start_update start_update_assigns
                (clock w) timeout).
      - apply poll_loop_chained.
      - apply poll_loop_entries.
      - assumption.
      - constructor.
      - constructor. }
    split; [assumption | apply sorted_NoDup; assumption].
  - assert (Hs : StronglySorted Z.lt
                   (observed (log (poll_loop pairing_request
                                     (pairing_update chat_id code) false
                                     fuel token (clock w) timeout 0
                                     (snd (time_time w)))))).
    { change (StronglySorted Z.lt
                ([] ++ observed
                         (log (poll_loop pairing_request
                                 (pairing_update chat_id code) false
                                 fuel token (clock w) timeout 0
                                 (snd (time_time w)))))).
      eapply (chained_once pairing_request (pairing_update chat_id code)
                (pairing_update_assigns chat_id code) (clock w) timeout).
      - apply poll_loop_chained.
      - apply poll_loop_entries.
      - assumption.
      - constructor.
      - constructor. }
    split; [assumption | apply sorted_NoDup; assumption].
Qed.

Lemma sortedb_sorted (l : list Z) :
  sortedb l = true -> StronglySorted Z.lt l.
Proof.
  induction l as [|i l IH]; [constructor|].
  simpl. intros E. apply andb_true_iff in E. destruct E as [Hall Hs].
  constructor; [auto|].
  apply Forall_forall. intros j Hj.
  rewrite forallb_forall in Hall. specialize (Hall j Hj).
  apply Z.ltb_lt. assumption.
Qed.

Lemma honours_check (l : list poll) :
  forallb honoursb l = true -> Forall honours l.
Proof.
  intros Hall. apply Forall_forall. intros e He.
  rewrite forallb_forall in Hall. specialize (Hall e He).
  unfold honoursb in Hall. apply andb_true_iff in Hall.
  destruct Hall as [Hs Hf]. split.
  - apply sortedb_sorted. assumption.
  - apply Forall_forall. intros i Hi.
    rewrite forallb_forall in Hf. specialize (Hf i Hi).
    apply Z.leb_le. assumption.
Qed.

Lemma X14_witness :
  let w := Sim.serving [[Sim.text_update 1 888 "hi"; Sim.other_update 2];
                        []; [Sim.other_update 5; Sim.text_update 7 777 "yo"]]
  in
  let h := wait_for_start_command 9 (lit "T1") 10 w in
  observed (log h) = [1; 2; 5; 7] /\
  StronglySorted Z.lt (observed (log h)) /\ NoDup (observed (log h)).
Proof.
  intros w h. split; [vm_compute; reflexivity|].
  apply (proj1 (X14_within_a_phase_each_update_is_seen_once
                  9 (lit "T1") (lit "777") (lit "482913") 10 w)).
  apply honours_check. vm_compute. reflexivity.
Defined.

(** *** The identity of a chat *)

Lemma lit_inj (a b : string) : lit a = lit b -> a = b.
Proof.
  unfold lit. intros E.
  rewrite <- (string_of_list_ascii_of_string a),
          <- (string_of_list_ascii_of_string b).
  f_equal. revert E.
  generalize (list_ascii_of_string a) (list_ascii_of_string b).
  intros l1. induction l1 as [|x l1 IH]; intros [|y l2] E;
    try discriminate; [reflexivity|].
  simpl in E. injection E as Exy El. f_equal; [|apply IH; assumption].
  rewrite <- (ascii_N_embedding x), <- (ascii_N_embedding y), Exy.
  reflexivity.
Qed.

Lemma to_int_printable (n : Z) :
  Z.to_int n <> Decimal.Pos Decimal.Nil /\
  Z.to_int n <> Decimal.Neg Decimal.Nil.
Proof.
  destruct n as [|p|p]; simpl; split; try discriminate;
    intros E; injection E as E;
    exact (DecimalPos.Unsigned.to_uint_nonnil p E).
Qed.

Lemma str_of_int_inj (n m : Z) : str_of_int n = str_of_int m -> n = m.
Proof.
  unfold str_of_int. intros E. apply lit_inj in E.
  apply DecimalZ.to_int_inj.
  destruct (to_int_printable n) as [Hn1 Hn2].
  destruct (to_int_printable m) as [Hm1 Hm2].
  pose proof (NilZero.isi (Z.to_int n) Hn1 Hn2) as In.
  pose proof (NilZero.isi (Z.to_int m) Hm1 Hm2) as Im.
  rewrite E in In. rewrite In in Im. injection Im as Im. exact Im.
Qed.

Lemma str_of_int_nonempty (n : Z) : str_of_int n <> [].
Proof.
  unfold str_of_int.
  destruct (to_int_printable n) as [H1 H2].
  destruct (Z.to_int n) as [d|d]; destruct d; simpl;
    try discriminate; contradiction.
Qed.

(** X15: the test of the chat is exact on integer chat ids.  The decimal
    string [str(n)] of an integer is never empty and determines [n]; so a
    text message from the integer chat [n] passes a challenge bound to the
    chat id [str(m)] exactly when [n = m] and its stripped text is the
    code, and the test [if not chat_id] of [setup_telegram] never drops an
    integer chat: a handshake that returned [str(n)] goes on to the
    challenge. *)
Theorem X15_integer_chat_ids_are_told_apart :
  forall {W : Type} `{World W} (fuel : nat) (rand : nat -> nat)
         (token : str) (w : W) (n m i : Z) (s code : str)
         (sender : from_field) (o : Z),
    str_of_int n <> [] /\
    (fst (pairing_update (str_of_int m) code
            (text_message i (IdInt n) s sender) o) = Return true
     <-> n = m /\ strip s = code) /\
    (result (handshake (pairing_attempt fuel rand token w))
     = Returned (Some (str_of_int n)) ->
     challenge (pairing_attempt fuel rand token w) <> None).
Proof.
  intros W HW fuel rand token w n m i s code sender o.
  split; [apply str_of_int_nonempty|]. split.
  - rewrite pairing_update_text, answersb_text. simpl fst.
    change (str_of_chat_id (IdInt n)) with (str_of_int n).
    destruct (eqb (str_of_int n) (str_of_int m)) eqn:En;
      destruct (eqb (strip s) code) eqn:Es; simpl.
    + apply eqb_eq in En, Es. apply str_of_int_inj in En. tauto.
    + apply eqb_neq in Es. split; [discriminate | tauto].
    + apply eqb_neq in En. split; [discriminate|].
      intros [-> _]. contradiction.
    + apply eqb_neq in En. split; [discriminate|].
      intros [-> _]. contradiction.
  - unfold pairing_attempt.
    destruct (result (wait_for_start_command fuel token 300 w))
      as [[[|ch id]|]|] eqn:Eh; simpl.
    + rewrite Eh. intros E. injection E as E. symmetry in E.
      exfalso. exact (str_of_int_nonempty n E).
    + destruct (send_telegram_message _ _ _ _) as [sent w1]. simpl.
      intros _. discriminate.
    + rewrite Eh. discriminate.
    + rewrite Eh. discriminate.
Qed.

Lemma X15_witness :
  let a := pairing_attempt 9 draws_482913 (lit "T1")
             (Sim.serving [[Sim.text_update 1 (-1001234) "/start"]]) in
  challenge a <> None.
Proof.
  intros a.
  apply (proj2 (proj2 (X15_integer_chat_ids_are_told_apart
                         9 draws_482913 (lit "T1")
                         (Sim.serving [[Sim.text_update 1 (-1001234) "/start"]])
                         (-1001234) 0 0 [] [] FromAbsent 0))).
  vm_compute. reflexivity.
Defined.

(** ** [is_first_run] *)

Module PersonalityFacts.

Import Personality.





End PersonalityFacts.

